(** * game_analyzer: acquisition, price parsing, discount statistics, ranking

    A shallow embedding of [game_analyzer.py].  Python [str] values are
    modelled by [string]; a character is a code point below 256 (Latin-1).
    Python [float] results that come from decimal literals are modelled by
    the rational the literal denotes ([Q]); [None]/NaN cells by [option]. *)

From Stdlib Require Import ZArith QArith Qabs Ascii String DecimalString List Lia.
From Stdlib Require Import Sorting.Permutation Sorting.Sorted.
From stdpp Require Import base strings gmap.

Local Open Scope Z_scope.

(* ===================================================================== *)
(** * Part I: the program *)
(* ===================================================================== *)

(** ** Python string primitives used by the source *)

Definition ascii_code (c : ascii) : N := N_of_ascii c.

(** [\d] of the [re] module, on code points below 256: ['0'..'9']. *)
Definition re_digit (c : ascii) : bool :=
  ((48 <=? ascii_code c) && (ascii_code c <=? 57))%N.

(** One character of [str.isdigit]: the decimal digits and, below 256, the
    superscripts U+00B2, U+00B3 and U+00B9. *)
Definition char_isdigit (c : ascii) : bool :=
  re_digit c
  || (ascii_code c =? 178)%N || (ascii_code c =? 179)%N
  || (ascii_code c =? 185)%N.

Fixpoint str_forallb (p : ascii -> bool) (s : string) : bool :=
  match s with
  | EmptyString => true
  | String c s' => p c && str_forallb p s'
  end.

(** Truth value of a [str]: non-empty. *)
Definition str_truthy (s : string) : bool :=
  match s with EmptyString => false | String _ _ => true end.

(** [s.isdigit()]: at least one character and every character a digit. *)
Definition str_isdigit (s : string) : bool :=
  str_truthy s && str_forallb char_isdigit s.

(** [c in s] for a one-character [c]. *)
Fixpoint str_contains (c : ascii) (s : string) : bool :=
  match s with
  | EmptyString => false
  | String d s' => Ascii.eqb c d || str_contains c s'
  end.

(** [s.replace(old, new)] for a one-character [old]. *)
Fixpoint str_replace (old : ascii) (new : string) (s : string) : string :=
  match s with
  | EmptyString => EmptyString
  | String c s' =>
      if Ascii.eqb c old then new +:+ str_replace old new s'
      else String c (str_replace old new s')
  end.

(** [re.sub(r'[^\d,.]', '', s)]: drop what is not a digit, comma or dot. *)
Definition price_char (c : ascii) : bool :=
  re_digit c || Ascii.eqb c "," || Ascii.eqb c ".".

Fixpoint re_sub_non_price (s : string) : string :=
  match s with
  | EmptyString => EmptyString
  | String c s' =>
      if price_char c then String c (re_sub_non_price s')
      else re_sub_non_price s'
  end.

Fixpoint str_take (n : nat) (s : string) : string :=
  match n, s with
  | S n', String c s' => String c (str_take n' s')
  | _, _ => EmptyString
  end.

Fixpoint str_drop (n : nat) (s : string) : string :=
  match n, s with
  | S n', String _ s' => str_drop n' s'
  | _, _ => s
  end.

(** The slices [s[:-2]] and [s[-2:]]. *)
Definition slice_to_minus2 (s : string) : string :=
  str_take (String.length s - 2) s.
Definition slice_from_minus2 (s : string) : string :=
  str_drop (String.length s - 2) s.

(** [s.partition('.')]: the text before the first dot and, when there is a
    dot, the text after it. *)
Fixpoint partition_dot (s : string) : string * option string :=
  match s with
  | EmptyString => (EmptyString, None)
  | String c s' =>
      if Ascii.eqb c "." then (EmptyString, Some s')
      else let '(a, b) := partition_dot s' in (String c a, b)
  end.

Definition digit_value (c : ascii) : Z := Z.of_N (ascii_code c) - 48.

Fixpoint digits_to_Z_acc (acc : Z) (s : string) : Z :=
  match s with
  | EmptyString => acc
  | String c s' => digits_to_Z_acc (10 * acc + digit_value c) s'
  end.

(** [int(s)] on a string of decimal digits. *)
Definition digits_to_Z (s : string) : Z := digits_to_Z_acc 0 s.

(** [float(s)] on the texts that reach it in this program: decimal digits
    and dots only (the price text is filtered by [re_sub_non_price], the
    rating by the pattern [[\d\.]+]).  [None] stands for [ValueError]:
    no digit at all, or more than one dot.  The value is the rational
    denoted by the literal, of which the Python float is the nearest
    double. *)
Definition python_float (s : string) : option Q :=
  match partition_dot s with
  | (ip, None) =>
      if str_truthy ip && str_forallb re_digit ip
      then Some (inject_Z (digits_to_Z ip)) else None
  | (ip, Some fp) =>
      if str_forallb re_digit ip && str_forallb re_digit fp
         && (str_truthy ip || str_truthy fp)
      then Some (digits_to_Z (ip +:+ fp)
                 # Z.to_pos (10 ^ Z.of_nat (String.length fp)))
      else None
  end.

(** ** Price Parser (the price block of [get_game_data]) *)

Inductive price_warning :=
| UnexpectedFormat   (* cleaned text of no recognised shape *)
| PriceValueError    (* [float] raised [ValueError] *)
| NoPriceFound.      (* the card has no [strong] element *)

(** The body of the [try]: [None] is a raised [ValueError]. *)
Definition parse_price_try (cleaned_price_str : string)
  : option (Q * option price_warning) :=
  if str_contains "," cleaned_price_str then
    let numeric_str :=
      str_replace "," "." (str_replace "." "" cleaned_price_str) in
    if str_truthy numeric_str
    then v ← python_float numeric_str; Some (v, None)
    else Some (0%Q, None)
  else if str_contains "." cleaned_price_str then
    let numeric_str := str_replace "," "" cleaned_price_str in
    if str_truthy numeric_str
    then v ← python_float numeric_str; Some (v, None)
    else Some (0%Q, None)
  else if str_isdigit cleaned_price_str then
    if (2 <=? String.length cleaned_price_str)%nat then
      let numeric_str :=
        slice_to_minus2 cleaned_price_str +:+ "."
        +:+ slice_from_minus2 cleaned_price_str in
      v ← python_float numeric_str; Some (v, None)
    else if (String.length cleaned_price_str =? 1)%nat then
      v ← python_float cleaned_price_str; Some (v, None)
    else Some (0%Q, None)
  else Some (0%Q, Some UnexpectedFormat).

(** [current_price] and the warning logged, for the text of a price
    element. *)
Definition parse_price (price_text : string) : Q * option price_warning :=
  let cleaned_price_str := re_sub_non_price price_text in
  match parse_price_try cleaned_price_str with
  | Some r => r
  | None => (0%Q, Some PriceValueError)
  end.

(** The same for a card whose [strong] element may be missing. *)
Definition card_current_price (price_elem : option string)
  : Q * option price_warning :=
  match price_elem with
  | Some price_text => parse_price price_text
  | None => (0%Q, Some NoPriceFound)
  end.

(** ** HTML Cache Store: file names *)

Definition CACHE_DIR : string := "html_cache".

(** [os.path.join(a, b)] with POSIX separators, for a directory name [a]
    that does not end in a slash: an absolute [b] replaces [a]. *)
Definition os_path_join (a b : string) : string :=
  match b with
  | String "/" _ => b
  | _ => a +:+ "/" +:+ b
  end.

Definition get_html_cache_filename (url : string) : string :=
  os_path_join CACHE_DIR
    (str_replace ":" "_" (str_replace "/" "_" url) +:+ ".html").

Definition get_steamdb_cache_filename (url : string) : string :=
  os_path_join CACHE_DIR
    ("steamdb_" +:+ str_replace ":" "_" (str_replace "/" "_" url)
     +:+ ".html").

(** ** Dates: the parts of [datetime] the source relies on *)

(** A naive [datetime.datetime] object. *)
Record datetime := mk_datetime {
  dt_year : Z; dt_month : Z; dt_day : Z;
  dt_hour : Z; dt_minute : Z; dt_second : Z; dt_microsecond : Z
}.

Definition is_leap (year : Z) : bool :=
  (year mod 4 =? 0) && (negb (year mod 100 =? 0) || (year mod 400 =? 0)).

Definition days_before_year (year : Z) : Z :=
  let y := year - 1 in y * 365 + y / 4 - y / 100 + y / 400.

Definition days_in_month (year month : Z) : Z :=
  if (month =? 2) && is_leap year then 29
  else nth (Z.to_nat month) [-1; 31; 28; 31; 30; 31; 30; 31; 31; 30; 31; 30; 31] 0.

Definition days_before_month (year month : Z) : Z :=
  nth (Z.to_nat month) [-1; 0; 31; 59; 90; 120; 151; 181; 212; 243; 273; 304; 334] 0
  + (if (2 <? month) && is_leap year then 1 else 0).

(** [date.toordinal()]: day 1 is 0001-01-01. *)
Definition toordinal (d : datetime) : Z :=
  days_before_year (dt_year d) + days_before_month (dt_year d) (dt_month d)
  + dt_day d.

(** The class invariant of [datetime]: what its constructor accepts. *)
Definition valid_datetime (d : datetime) : Prop :=
  1 <= dt_year d <= 9999 /\ 1 <= dt_month d <= 12
  /\ 1 <= dt_day d <= days_in_month (dt_year d) (dt_month d)
  /\ 0 <= dt_hour d < 24 /\ 0 <= dt_minute d < 60
  /\ 0 <= dt_second d < 60 /\ 0 <= dt_microsecond d < 1000000.

(** Comparison of two datetimes: lexicographic on the seven fields. *)
Definition datetime_cmp (a b : datetime) : comparison :=
  match dt_year a ?= dt_year b with Eq =>
  match dt_month a ?= dt_month b with Eq =>
  match dt_day a ?= dt_day b with Eq =>
  match dt_hour a ?= dt_hour b with Eq =>
  match dt_minute a ?= dt_minute b with Eq =>
  match dt_second a ?= dt_second b with Eq =>
  dt_microsecond a ?= dt_microsecond b
  | c => c end | c => c end | c => c end | c => c end | c => c end
  | c => c end.

Definition datetime_ltb (a b : datetime) : bool :=
  match datetime_cmp a b with Lt => true | _ => false end.

(** [(a - b).days]: a [timedelta] is normalised so that its seconds and
    microseconds are non-negative, hence the days are the floor. *)
Definition microseconds_per_day : Z := 86400 * 1000000.

Definition timedelta_microseconds (a b : datetime) : Z :=
  (toordinal a - toordinal b) * microseconds_per_day
  + ((dt_second a + dt_minute a * 60 + dt_hour a * 3600)
     - (dt_second b + dt_minute b * 60 + dt_hour b * 3600)) * 1000000
  + (dt_microsecond a - dt_microsecond b).

Definition sub_days (a b : datetime) : Z :=
  timedelta_microseconds a b / microseconds_per_day.

(** Decimal text of a natural number, zero-padded to [width] digits. *)
Definition str_of_nat (n : nat) : string :=
  NilZero.string_of_uint (Nat.to_uint n).

Fixpoint zeros (n : nat) : string :=
  match n with O => EmptyString | S n' => String "0" (zeros n') end.

Definition zero_pad (width : nat) (n : Z) : string :=
  let s := str_of_nat (Z.to_nat n) in
  zeros (width - String.length s) +:+ s.

(** [d.strftime('%Y-%m-%d')] as the C library prints it: month and day in
    two digits, the year in as many digits as it has (year 999 prints as
    [999]). *)
Definition strftime_Ymd (d : datetime) : string :=
  str_of_nat (Z.to_nat (dt_year d)) +:+ "-" +:+ zero_pad 2 (dt_month d)
  +:+ "-" +:+ zero_pad 2 (dt_day d).

(** The ISO 8601 calendar date [YYYY-MM-DD] ([d.date().isoformat()]): the
    year always in four digits. *)
Definition isoformat_date (d : datetime) : string :=
  zero_pad 4 (dt_year d) +:+ "-" +:+ zero_pad 2 (dt_month d) +:+ "-"
  +:+ zero_pad 2 (dt_day d).

(** What [dateutil.parser.parse] returns: a datetime without time zone,
    or, when the text names a zone or an offset, one that carries its
    offset from UTC (in seconds). *)
Inductive parsed_date :=
| Naive (d : datetime)
| Aware (d : datetime) (utcoffset : Z).

Definition naive_part (p : parsed_date) : option datetime :=
  match p with Naive d => Some d | Aware _ _ => None end.

(** The dates of a list in which none carries a time zone. *)
Fixpoint all_naive (dates : list parsed_date) : option (list datetime) :=
  match dates with
  | [] => Some []
  | p :: dates =>
      match naive_part p, all_naive dates with
      | Some d, Some ds => Some (d :: ds)
      | _, _ => None
      end
  end.

(** [dates.sort(reverse=True)]: descending, equal elements keep their
    order. *)
Fixpoint insert_desc (x : datetime) (l : list datetime) : list datetime :=
  match l with
  | [] => [x]
  | y :: l' => if datetime_ltb x y then y :: insert_desc x l' else x :: l
  end.

Definition sort_reverse (dates : list datetime) : list datetime :=
  foldr insert_desc [] dates.

(** ** Discount Statistics Calculator *)

Record discount_stats := mk_stats {
  st_last_discount : option string;
  st_days_since_last_discount : option Z;
  st_avg_days_between_discounts : option Q
}.

(** [(dates[i] - dates[i+1]).days for i in range(len(dates)-1)]. *)
Fixpoint consecutive_days (dates : list datetime) : list Z :=
  match dates with
  | a :: ((b :: _) as rest) => sub_days a b :: consecutive_days rest
  | _ => []
  end.

Definition Zsum (l : list Z) : Z := foldr Z.add 0 l.

(** [sum(diff_days) / len(diff_days)] for a non-empty list. *)
Definition mean_days (diff_days : list Z) : Q :=
  Zsum diff_days # Pos.of_nat (length diff_days).

(** The three fields when a history table was found; they stay [None]
    where the source leaves them so. *)
Definition discount_statistics (now : datetime) (dates : list datetime)
  : discount_stats :=
  match sort_reverse dates with
  | [] => mk_stats None None None
  | (d0 :: _) as sorted =>
      let avg :=
        if (1 <? length sorted)%nat then
          let diff_days := filter (fun g => 0 <= g) (consecutive_days sorted) in
          match diff_days with
          | [] => None
          | _ => Some (mean_days diff_days)
          end
        else None in
      mk_stats (Some (strftime_Ymd d0)) (Some (sub_days now d0)) avg
  end.

(** The block under [if history_table:] on the dates [parser.parse]
    returned.  [None] is a [TypeError]: comparing a datetime that carries
    a time zone with one that does not raises it in [dates.sort], and
    [datetime.now()], which carries none, cannot be subtracted from or
    compared with one that does; so the block completes only when no date
    of the list carries a time zone. *)
Definition history_statistics (now : datetime) (dates : list parsed_date)
  : option discount_stats :=
  match dates with
  | [] => Some (mk_stats None None None)
  | _ =>
      match all_naive dates with
      | Some naive_dates => Some (discount_statistics now naive_dates)
      | None => None
      end
  end.

(** ** Item records and frames *)

(** One row of the [games] table, of the CSV snapshot, or one scraped
    dictionary.  A cell that is NULL, NaN or not numeric is [None]. *)
Record game := mk_game {
  title : string;
  current_price : option Q;
  detail_url : option string;
  metascore : option Z;
  openscore : option Z;
  steam_score : option Q;
  last_discount : option string;
  avg_days_between_discounts : option Q;
  days_since_last_discount : option Z
}.

(** A [DataFrame]: its rows in order. *)
Definition frame := list game.

(** [pd.to_numeric(col, errors='coerce').fillna(0)] on one cell. *)
Definition fillna {A} (v : A) (cell : option A) : option A :=
  Some (default v cell).

(** The coercions applied to a frame before it is returned: only the price
    column is filled; on the other columns [to_numeric] keeps numbers and
    NaN as they are. *)
Definition ensure_types_row (g : game) : game :=
  mk_game (title g) (fillna 0%Q (current_price g)) (detail_url g)
    (metascore g) (openscore g) (steam_score g) (last_discount g)
    (avg_days_between_discounts g) (days_since_last_discount g).

Definition ensure_types (df : frame) : frame := map ensure_types_row df.

(** ** Recommendation Engine *)

(** A float that is a number or plus infinity ([1 / 0.0] in a float
    column). *)
Inductive xfloat := Finite (q : Q) | PosInf.

Definition xleb (a b : xfloat) : bool :=
  match a, b with
  | _, PosInf => true
  | PosInf, Finite _ => false
  | Finite x, Finite y => Qle_bool x y
  end.

Record recommendation := mk_recommendation {
  rec_game : game;
  avg_score : option Q;
  normalized_price : option Q;
  normalized_score : option Q;
  discount_probability : xfloat;
  recommendation_score : xfloat
}.

Definition Qsum (l : list Q) : Q := foldr Qplus 0%Q l.

(** [mean(axis=1)]: the mean of the cells that are present, NaN if none. *)
Definition row_mean (cells : list (option Q)) : option Q :=
  match omap id cells with
  | [] => None
  | present => Some (Qsum present / inject_Z (Z.of_nat (length present)))%Q
  end.

Definition Qmaxb (a b : Q) : Q := if Qle_bool a b then b else a.
Definition Qminb (a b : Q) : Q := if Qle_bool a b then a else b.

(** [Series.max()] and [Series.min()]: NaN cells are skipped, the result is
    NaN when nothing is left. *)
Definition series_max (col : list (option Q)) : option Q :=
  match omap id col with
  | [] => None
  | x :: l => Some (fold_left Qmaxb l x)
  end.

Definition series_min (col : list (option Q)) : option Q :=
  match omap id col with
  | [] => None
  | x :: l => Some (fold_left Qminb l x)
  end.

(** [x > 0] for a float that may be NaN. *)
Definition gt0 (x : option Q) : bool :=
  match x with
  | Some v => negb (Qle_bool v 0)
  | None => false
  end.

(** The divisor of the price normalisation when the division is
    performed. *)
Definition price_divisor (df : frame) : option Q :=
  let max_price := series_max (map current_price df) in
  if gt0 max_price then max_price else None.

(** The divisor of the score normalisation when the division is
    performed. *)
Definition score_divisor (avgs : list (option Q)) : option Q :=
  let score_range :=
    mx ← series_max avgs; mn ← series_min avgs; Some (mx - mn)%Q in
  if gt0 score_range then score_range else None.

Definition game_avg_score (g : game) : option Q :=
  row_mean [inject_Z <$> metascore g; inject_Z <$> openscore g; steam_score g].

(** The step of [analyze_and_recommend] on the price and score columns. *)
Definition coerce_row (g : game) : game :=
  mk_game (title g) (fillna 0%Q (current_price g)) (detail_url g)
    (metascore g) (openscore g) (steam_score g) (last_discount g)
    (avg_days_between_discounts g)
    (fillna 365 (days_since_last_discount g)).

Definition discount_probability_of (days : Z) : xfloat :=
  if days + 1 =? 0 then PosInf
  else Finite (1 / inject_Z (days + 1))%Q.

Definition recommendation_score_of (ns np : option Q) (dp : xfloat) : xfloat :=
  match dp with
  | PosInf => PosInf
  | Finite p =>
      Finite ((4 # 10) * default 0 ns + (3 # 10) * default 0 np
              + (3 # 10) * p)%Q
  end.

Definition score_row (pdiv sdiv min_avg : option Q) (g : game)
  : recommendation :=
  let price := default 0%Q (current_price g) in
  let avg := game_avg_score g in
  let np :=
    match pdiv with
    | Some max_price => Some (1 - price / max_price)%Q
    | None => Some 0%Q
    end in
  let ns :=
    match sdiv with
    | Some score_range =>
        a ← avg; mn ← min_avg; Some ((a - mn) / score_range)%Q
    | None => Some 0%Q
    end in
  let dp := discount_probability_of (default 365 (days_since_last_discount g)) in
  mk_recommendation g avg np ns dp (recommendation_score_of ns np dp).

(** The frame with its derived columns, before it is sorted. *)
Definition add_scores (df : frame) : list recommendation :=
  let df := map coerce_row df in
  let avgs := map game_avg_score df in
  map (score_row (price_divisor df) (score_divisor avgs) (series_min avgs)) df.

Section RecommendationEngine.
(** [DataFrame.sort_values('recommendation_score', ascending=False)] with
    the default [kind='quicksort'], the sorting routine of the array
    library.  The routine is not part of this program: what is proved of
    the engine holds for every routine that keeps [sort_values_contract]
    below. *)
Variable sort_values_desc : list recommendation -> list recommendation.

Definition analyze_and_recommend (df : frame) : list recommendation :=
  sort_values_desc (add_scores df).
End RecommendationEngine.

(** What [sort_values] promises for a descending sort on
    [recommendation_score]: the rows are reordered and the scores do not
    increase.  The order it gives to rows with equal scores is the
    library's and is not modelled. *)
Definition score_ge (a b : recommendation) : Prop :=
  xleb (recommendation_score b) (recommendation_score a) = true.

Definition sort_values_contract
    (sort : list recommendation -> list recommendation) : Prop :=
  forall l, Permutation l (sort l) /\ Sorted score_ge (sort l).

(** Insertion sort with a test deciding whether the new row goes in front. *)
Fixpoint insert_by {A} (before : A -> A -> bool) (x : A) (l : list A) : list A :=
  match l with
  | [] => [x]
  | y :: l' => if before x y then x :: l else y :: insert_by before x l'
  end.

Definition sort_by {A} (before : A -> A -> bool) (l : list A) : list A :=
  foldr (insert_by before) [] l.

(** A descending sort that keeps rows with equal scores in input order. *)
Definition stable_sort_desc : list recommendation -> list recommendation :=
  sort_by (fun x y => xleb (recommendation_score y) (recommendation_score x)).

(** ** Persistent Record Store *)

(** The [games] table: its rows in rowid order, at most one per title. *)
Definition game_exists_in_db (db : list game) (t : string) : bool :=
  existsb (fun g => String.eqb (title g) t) db.

(** The eight columns written by the [INSERT]. *)
Definition db_row (g : game) : game :=
  mk_game (title g) (current_price g) None (metascore g) (openscore g)
    (steam_score g) (last_discount g) (avg_days_between_discounts g)
    (days_since_last_discount g).

(** [INSERT OR REPLACE]: a row of the same title is deleted, the new row
    gets a fresh rowid. *)
Definition insert_or_replace (db : list game) (g : game) : list game :=
  List.filter (fun r => negb (String.eqb (title r) (title g))) db
  ++ [db_row g].

(** A Python [int] can be bound to a statement only if it fits a signed
    64-bit integer; otherwise [cursor.execute] raises [OverflowError]. *)
Definition fits_int64 (o : option Z) : bool :=
  match o with
  | Some z => (- 2 ^ 63 <=? z) && (z <? 2 ^ 63)
  | None => true
  end.

(** The record's integer fields can all be bound. *)
Definition sqlite_accepts (g : game) : bool :=
  fits_int64 (metascore g) && fits_int64 (openscore g)
  && fits_int64 (days_since_last_discount g).

(** ** Flat-file snapshot ([wishlist_cache.csv]) *)

Inductive flat_cache :=
| CsvMissing                                (* the file does not exist *)
| CsvUnreadable                             (* reading it raises *)
| CsvFrame (has_title : bool) (rows : frame).  (* the frame it holds *)

(** Tier 2: the frame returned from the snapshot, if it is usable. *)
Definition load_csv_cache (c : flat_cache) : option frame :=
  match c with
  | CsvFrame true ((_ :: _) as rows) => Some (ensure_types rows)
  | _ => None
  end.

(** ** Requests, pages and the state of the outside world *)

Definition headers : list (string * string) :=
  [("User-Agent",
    "Mozilla/5.0 (Windows NT 10.0; Win64; x64) AppleWebKit/537.36 (KHTML, like Gecko) Chrome/91.0.4472.124 Safari/537.36");
   ("Accept",
    "text/html,application/xhtml+xml,application/xml;q=0.9,image/webp,*/*;q=0.8");
   ("Accept-Language", "en-US,en;q=0.5")].

(** The call site of a GET. *)
Inductive request_kind :=
| ListingGet (page : nat)
| DetailGet (game_title : string)
| SearchGet (game_title : string)
| AppGet (app_id : string).

(** One GET as the program issues it: the [headers=] and [timeout=]
    arguments it passes ([[]] and [None] when it passes none). *)
Record request := mk_request {
  req_kind : request_kind;
  req_url : string;
  req_headers : list (string * string);
  req_timeout : option nat
}.

(** A listing card: the stripped text of its title and price elements and
    the link of its [.main-link], each when present. *)
Record card := mk_card {
  card_title : option string;
  card_price : option string;
  card_href : option string
}.

(** What the selectors find on a listing page. *)
Record listing_page := mk_listing {
  game_cards : list card;
  rel_next_link : bool;               (* [a.page-link[rel="next"]] exists *)
  active_next_link : option bool      (* active indicator found; its next
                                         sibling holds a page link *)
}.

(** What the selectors find on a detail page. *)
Record detail_page := mk_detail {
  metacritic_text : option string;
  opencritic_text : option string;
  history_table : option (list (option string))  (* per row: first cell *)
}.

(** The first [.app a] of a search page. *)
Inductive search_result :=
| NoResult
| ResultLink (href : option string).

(** The store, the snapshot, the cache directory and the logs, with the
    answers of the database and of the file system to a write:
    [db_commits g] tells whether the database takes the [INSERT] of a
    record it can bind (it does not when the file is locked or the disk
    full), [fs_write file text] is what [file] holds after
    [open(file, 'w')] and [f.write(text)], [None] when [open] raises and
    the directory stays as it was. *)
Record state := mk_state {
  db : list game;
  csv : flat_cache;
  files : gmap string string;      (* the cache directory, by file name *)
  trace : list request;            (* the GETs issued, oldest first *)
  price_log : list (string * price_warning);
  db_commits : game -> bool;
  fs_write : string -> string -> option string
}.

Definition set_db (st : state) (d : list game) : state :=
  mk_state d (csv st) (files st) (trace st) (price_log st) (db_commits st)
    (fs_write st).
Definition set_csv (st : state) (c : flat_cache) : state :=
  mk_state (db st) c (files st) (trace st) (price_log st) (db_commits st)
    (fs_write st).
Definition set_files (st : state) (f : gmap string string) : state :=
  mk_state (db st) (csv st) f (trace st) (price_log st) (db_commits st)
    (fs_write st).
Definition log_request (st : state) (r : request) : state :=
  mk_state (db st) (csv st) (files st) (trace st ++ [r]) (price_log st)
    (db_commits st) (fs_write st).
Definition log_price (st : state) (t : string) (w : option price_warning)
  : state :=
  match w with
  | Some w => mk_state (db st) (csv st) (files st) (trace st)
                (price_log st ++ [(t, w)]) (db_commits st) (fs_write st)
  | None => st
  end.

(** The [INSERT] of [g] succeeds. *)
Definition insert_succeeds (st : state) (g : game) : bool :=
  sqlite_accepts g && db_commits st g.

(** [save_game_to_db(game)]: an exception of the [INSERT] is logged and
    swallowed, the table stays as it was. *)
Definition save_game_to_db (st : state) (g : game) : state :=
  if insert_succeeds st g then set_db st (insert_or_replace (db st) g)
  else st.

(** A cached text that is found and not empty. *)
Definition truthy_text (o : option string) : option string :=
  match o with
  | Some s => if str_truthy s then Some s else None
  | None => None
  end.

(** Reading in text mode: [f.read()] returns every line ending, a
    carriage return followed by a line feed or a carriage return alone, as
    one line feed. *)
Fixpoint universal_newlines (s : string) : string :=
  match s with
  | EmptyString => EmptyString
  | String c s' =>
      if Ascii.eqb c "013" then
        String "010"
          match s' with
          | String d s'' =>
              if Ascii.eqb d "010" then universal_newlines s''
              else universal_newlines s'
          | EmptyString => EmptyString
          end
      else String c (universal_newlines s')
  end.

(** [open(cache_file, 'r').read()] when the file exists. *)
Definition read_text (st : state) (cache_file : string) : option string :=
  universal_newlines <$> files st !! cache_file.

(** [open(cache_file, 'w')] and [f.write(html_content)], whose exceptions
    are logged and swallowed. *)
Definition write_text (st : state) (cache_file html_content : string)
  : state :=
  match fs_write st cache_file html_content with
  | Some stored => set_files st (<[cache_file := stored]> (files st))
  | None => st
  end.

Definition get_html_from_cache (st : state) (url : string) : option string :=
  read_text st (get_html_cache_filename url).
Definition save_html_to_cache (st : state) (url html : string) : state :=
  write_text st (get_html_cache_filename url) html.
Definition get_steamdb_html_from_cache (st : state) (url : string)
  : option string :=
  read_text st (get_steamdb_cache_filename url).
Definition save_steamdb_html_to_cache (st : state) (url html : string)
  : state :=
  write_text st (get_steamdb_cache_filename url) html.

(** [s.split(sep)] for a one-character separator. *)
Fixpoint str_split (sep : ascii) (s : string) : list string :=
  match s with
  | EmptyString => [EmptyString]
  | String c s' =>
      if Ascii.eqb c sep then EmptyString :: str_split sep s'
      else match str_split sep s' with
           | [] => [String c EmptyString]
           | w :: ws => String c w :: ws
           end
  end.

(** ** Acquisition Orchestrator *)

Section Acquisition.
(** The network: the body of a successful response to a GET of a URL with
    the given headers; [None] is a [RequestException]. *)
Variable http_get : string -> list (string * string) -> option string.
(** The selectors of the HTML parser, on each kind of page. *)
Variable parse_listing : string -> listing_page.
Variable parse_detail : string -> detail_page.
Variable parse_search : string -> search_result.
(** The percentage matched in the review element's label, if any. *)
Variable parse_app : string -> option string.
(** [dateutil.parser.parse]; [None] when it raises. *)
Variable dateutil_parse : string -> option parsed_date.
(** [datetime.now()]. *)
Variable now : datetime.
(** [df.to_csv(CACHE_FILE, index=False)]: what a later [pd.read_csv] makes
    of the file written for a frame; [None] when the write raises. *)
Variable to_csv : frame -> option flat_cache.

(** In the functions below a result [None] next to the state is an
    exception that leaves the function. *)

Definition search_steamdb (st : state) (game_title : string)
  : state * option (option string) :=
  let search_url := "https://steamdb.info/search/?a=app&q=" +:+ game_title in
  let '(st, html_content) :=
    match truthy_text (get_steamdb_html_from_cache st search_url) with
    | Some html_content => (st, Some html_content)
    | None =>
        let st := log_request st
                    (mk_request (SearchGet game_title) search_url [] None) in
        match http_get search_url [] with
        | Some html_content =>
            (save_steamdb_html_to_cache st search_url html_content,
             Some html_content)
        | None => (st, None)
        end
    end in
  match html_content with
  | None => (st, Some None)
  | Some html_content =>
      match parse_search html_content with
      | NoResult => (st, Some None)
      | ResultLink None => (st, None)
      | ResultLink (Some href) =>
          match str_split "/" href !! 2%nat with
          | Some app_id => (st, Some (Some app_id))
          | None => (st, None)
          end
      end
  end.

Definition get_steam_rating (st : state) (app_id : option string)
  : state * option string :=
  match truthy_text app_id with
  | None => (st, None)
  | Some app_id =>
      let app_url := "https://steamdb.info/app/" +:+ app_id +:+ "/" in
      match truthy_text (get_steamdb_html_from_cache st app_url) with
      | Some html_content => (st, parse_app html_content)
      | None =>
          let st := log_request st
                      (mk_request (AppGet app_id) app_url [] None) in
          match http_get app_url [] with
          | Some html_content =>
              (save_steamdb_html_to_cache st app_url html_content,
               parse_app html_content)
          | None => (st, None)
          end
      end
  end.

(** [int(text) if elem and text.isdigit() else None]; the outer [None] is
    the [ValueError] of [int]. *)
Definition score_cell (text : option string) : option (option Z) :=
  match text with
  | Some t =>
      if str_isdigit t then
        if str_forallb re_digit t then Some (Some (digits_to_Z t)) else None
      else Some None
  | None => Some None
  end.

(** The dates collected from the rows after the header row. *)
Definition history_dates (rows : list (option string)) : list parsed_date :=
  omap (fun date_cell =>
          date_str ← date_cell;
          if str_truthy date_str then dateutil_parse date_str else None)
       (tail rows).

(** The [try] block of one card: the page is taken from the cache or
    fetched, then the record is completed. *)
Definition scrape_details (st : state) (t : string) (price : Q)
    (detail_url : string) : state * option game :=
  let '(st, detail_html) :=
    match truthy_text (get_html_from_cache st detail_url) with
    | Some detail_html_cache => (st, Some detail_html_cache)
    | None =>
        let st := log_request st
                    (mk_request (DetailGet t) detail_url headers (Some 15%nat)) in
        match http_get detail_url headers with
        | Some detail_html =>
            (save_html_to_cache st detail_url detail_html, Some detail_html)
        | None => (st, None)
        end
    end in
  match detail_html with
  | None => (st, None)
  | Some detail_html =>
      let detail_soup := parse_detail detail_html in
      match score_cell (metacritic_text detail_soup) with
      | None => (st, None)
      | Some metascore =>
      match score_cell (opencritic_text detail_soup) with
      | None => (st, None)
      | Some openscore =>
          let '(st, app_id) := search_steamdb st t in
          match app_id with
          | None => (st, None)
          | Some app_id =>
              let '(st, steam_score_str) := get_steam_rating st app_id in
              let steam_score :=
                match truthy_text steam_score_str with
                | Some s => option_map Some (python_float s)
                | None => Some None
                end in
              match steam_score with
              | None => (st, None)
              | Some steam_score =>
                  let stats :=
                    match history_table detail_soup with
                    | Some rows => history_statistics now (history_dates rows)
                    | None => Some (mk_stats None None None)
                    end in
                  match stats with
                  | None => (st, None)
                  | Some stats =>
                      (st,
                       Some (mk_game t (Some price) (Some detail_url)
                               metascore openscore steam_score
                               (st_last_discount stats)
                               (st_avg_days_between_discounts stats)
                               (st_days_since_last_discount stats)))
                  end
              end
          end
      end
      end
  end.

(** The state of the scraping loop. *)
Record scrape := mk_scrape {
  sc_state : state;
  all_games : list game;
  games_processed_count : nat
}.

(** The body of [for card in game_cards]. *)
Definition process_card (sc : scrape) (c : card) : scrape :=
  match card_title c with
  | None => sc
  | Some t =>
      if game_exists_in_db (db (sc_state sc)) t then sc
      else
        let count := S (games_processed_count sc) in
        let '(price, warning) := card_current_price (card_price c) in
        let st := log_price (sc_state sc) t warning in
        match truthy_text (card_href c) with
        | None => mk_scrape st (all_games sc) count
        | Some href =>
            let detail_url := "https://www.dekudeals.com" +:+ href in
            match scrape_details st t price detail_url with
            | (st, None) => mk_scrape st (all_games sc) count
            | (st, Some game) =>
                mk_scrape (save_game_to_db st game) (all_games sc ++ [game])
                  count
            end
        end
  end.

Definition next_page_link (lp : listing_page) : bool :=
  rel_next_link lp || default false (active_next_link lp).

(** The [while True] loop, one page per unit of fuel; [None] when the
    fuel runs out before the loop breaks. *)
Fixpoint crawl (fuel : nat) (base_url : string) (page : nat) (sc : scrape)
  : option scrape :=
  match fuel with
  | O => None
  | S fuel =>
      let url :=
        if (1 <? page)%nat then base_url +:+ "?page=" +:+ str_of_nat page
        else base_url in
      let st := log_request (sc_state sc)
                  (mk_request (ListingGet page) url headers (Some 15%nat)) in
      match http_get url headers with
      | None => Some (mk_scrape st (all_games sc) (games_processed_count sc))
      | Some html_content =>
          let st := save_html_to_cache st url html_content in
          let soup := parse_listing html_content in
          let sc := mk_scrape st (all_games sc) (games_processed_count sc) in
          match game_cards soup with
          | [] => Some sc
          | cards =>
              let sc := fold_left process_card cards sc in
              if next_page_link soup then crawl fuel base_url (S page) sc
              else Some sc
          end
      end
  end.

(** What is returned, and the snapshot written, once the loop is left. *)
Definition post_scraping (sc : scrape) : frame * state :=
  let st := sc_state sc in
  match all_games sc with
  | [] =>
      if (games_processed_count sc =? 0)%nat then
        match db st with
        | [] => ([], st)
        | df => (ensure_types df, st)
        end
      else ([], st)
  | games =>
      (ensure_types games,
       match to_csv games with
       | Some written => set_csv st written
       | None => st
       end)
  end.

(** [get_game_data(base_url, force_refresh)] from a state of the store,
    the snapshot and the cache directory. *)
Definition get_game_data (fuel : nat) (base_url : string)
    (force_refresh : bool) (st : state) : option (frame * state) :=
  let loaded :=
    if force_refresh then None
    else
      if (0 <? length (db st))%nat then
        match db st with
        | [] => load_csv_cache (csv st)
        | df => Some (ensure_types df)
        end
      else load_csv_cache (csv st) in
  match loaded with
  | Some df => Some (df, st)
  | None =>
      sc ← crawl fuel base_url 1 (mk_scrape st [] 0);
      Some (post_scraping sc)
  end.
End Acquisition.

(** ** Predicates used in the statements *)

(** The characters that the file name no longer tells apart. *)
Definition is_separator (c : ascii) : Prop :=
  c = "/"%char \/ c = ":"%char \/ c = "_"%char.

(** Two URLs of the same length that agree at every position, up to an
    exchange among ["/"], [":"] and ["_"]. *)
Fixpoint same_modulo_separators (u v : string) : Prop :=
  match u, v with
  | EmptyString, EmptyString => True
  | String c u', String d v' =>
      (c = d \/ (is_separator c /\ is_separator d))
      /\ same_modulo_separators u' v'
  | _, _ => False
  end.

(** The URL part of a cache file name. *)
Definition sanitize (url : string) : string :=
  str_replace ":" "_" (str_replace "/" "_" url).


(** A datetime as microseconds since the start of day 0. *)
Definition to_microseconds (d : datetime) : Z :=
  toordinal d * microseconds_per_day
  + (dt_second d + dt_minute d * 60 + dt_hour d * 3600) * 1000000
  + dt_microsecond d.

(** [m] is one of the dates of [D] and none is later. *)
Definition is_latest (m : datetime) (D : list datetime) : Prop :=
  In m D /\ forall d, In d D -> datetime_ltb m d = false.

(** Descending order of a list of datetimes. *)
Definition descending (S : list datetime) : Prop :=
  StronglySorted (fun a b => datetime_ltb a b = false) S.

(** The rows Tier 2 can load from a snapshot. *)
Definition usable_snapshot (c : flat_cache) : frame :=
  match c with
  | CsvFrame true rows => rows
  | _ => []
  end.

Section Runs.
Variable http_get : string -> list (string * string) -> option string.
Variable parse_listing : string -> listing_page.
Variable parse_detail : string -> detail_page.
Variable parse_search : string -> search_result.
Variable parse_app : string -> option string.
Variable dateutil_parse : string -> option parsed_date.

(** The URL of a listing page. *)
Definition page_url (base_url : string) (page : nat) : string :=
  if (1 <? page)%nat then base_url +:+ "?page=" +:+ str_of_nat page
  else base_url.

(** The loop is left on this page: its fetch fails, it shows no card, or
    it shows no link to a next page. *)
Definition last_page (base_url : string) (page : nat) : bool :=
  match http_get (page_url base_url page) headers with
  | None => true
  | Some html_content =>
      match game_cards (parse_listing html_content) with
      | [] => true
      | _ => negb (next_page_link (parse_listing html_content))
      end
  end.

(** No statement of the [try] block raises on this detail page: the
    score texts that [isdigit] accepts are read by [int], and no date of
    the history table carries a time zone. *)
Definition detail_page_parses (page : detail_page) : Prop :=
  is_Some (score_cell (metacritic_text page))
  /\ is_Some (score_cell (opencritic_text page))
  /\ (forall rows, history_table page = Some rows ->
        is_Some (all_naive (history_dates dateutil_parse rows))).

(** [result_link['href'].split('/')[2]] does not raise. *)
Definition search_result_parses (r : search_result) : Prop :=
  match r with
  | NoResult => True
  | ResultLink None => False
  | ResultLink (Some href) => is_Some (str_split "/" href !! 2%nat)
  end.

(** [float(steam_score_str)] does not raise. *)
Definition rating_parses (steam_score_str : option string) : Prop :=
  match truthy_text steam_score_str with
  | Some s => is_Some (python_float s)
  | None => True
  end.

(** The pages of this world never make the detail processing raise. *)
Definition pages_parse : Prop :=
  (forall html, detail_page_parses (parse_detail html))
  /\ (forall html, search_result_parses (parse_search html))
  /\ (forall html, rating_parses (parse_app html)).

(** The card shows the title [t] and a link whose page can be fetched. *)
Definition card_of_title (t : string) (c : card) : Prop :=
  card_title c = Some t
  /\ exists href,
       truthy_text (card_href c) = Some href
       /\ is_Some (http_get ("https://www.dekudeals.com" +:+ href) headers).

(** The loop reaches page [j]: no page before it ends the listing. *)
Definition page_reached (base_url : string) (j : nat) : Prop :=
  forall i, (1 <= i < j)%nat -> last_page base_url i = false.
End Runs.

(** The result holds a record of title [t]. *)
Definition has_title (t : string) (games : list game) : Prop :=
  exists g, In g games /\ title g = t.

(** The arguments each call site passes with its GET. *)
Definition request_shape (r : request) : Prop :=
  match req_kind r with
  | ListingGet _ | DetailGet _ =>
      req_headers r = headers /\ req_timeout r = Some 15%nat
  | SearchGet game_title =>
      req_url r = "https://steamdb.info/search/?a=app&q=" +:+ game_title
      /\ req_headers r = [] /\ req_timeout r = None
  | AppGet app_id =>
      req_url r = "https://steamdb.info/app/" +:+ app_id +:+ "/"
      /\ req_headers r = [] /\ req_timeout r = None
  end.

(** The requests made while one card of title [t] is processed. *)
Definition card_request (t : string) (r : request) : Prop :=
  request_shape r
  /\ match req_kind r with
     | ListingGet _ => False
     | DetailGet t' | SearchGet t' => t' = t
     | AppGet _ => True
     end.

(** What the work on one card may do to the state: the table and the
    snapshot stay, GETs satisfying [P] are added to the trace, no cache
    file disappears; the database and the file system answer as before. *)
Definition state_extends (P : request -> Prop) (st st' : state) : Prop :=
  db st' = db st /\ csv st' = csv st
  /\ (exists new_requests,
        trace st' = trace st ++ new_requests /\ Forall P new_requests)
  /\ (forall file, is_Some (files st !! file) -> is_Some (files st' !! file))
  /\ db_commits st' = db_commits st /\ fs_write st' = fs_write st.

(** What a stretch of the scraping loop may have done between [sc] and
    [sc']: GETs of the expected shape were added to the trace, records
    were appended to the result and those whose [INSERT] succeeded, in the
    same order, to the table, under titles that differ from one another;
    each new title was absent from the table before; no detail page was
    requested for a title the table held; the snapshot was not touched and
    no cache file disappeared. *)
Definition scraped_only_new (sc sc' : scrape) : Prop :=
  exists new_requests new_games,
    trace (sc_state sc') = trace (sc_state sc) ++ new_requests
    /\ all_games sc' = all_games sc ++ new_games
    /\ db (sc_state sc')
       = db (sc_state sc)
         ++ map db_row (List.filter (insert_succeeds (sc_state sc)) new_games)
    /\ csv (sc_state sc') = csv (sc_state sc)
    /\ NoDup (map title
                (List.filter (insert_succeeds (sc_state sc)) new_games))
    /\ (forall g, In g new_games ->
          game_exists_in_db (db (sc_state sc)) (title g) = false)
    /\ (forall r t, In r new_requests -> req_kind r = DetailGet t ->
          game_exists_in_db (db (sc_state sc)) t = false)
    /\ Forall request_shape new_requests
    /\ (forall file, is_Some (files (sc_state sc) !! file) ->
          is_Some (files (sc_state sc') !! file))
    /\ db_commits (sc_state sc') = db_commits (sc_state sc)
    /\ fs_write (sc_state sc') = fs_write (sc_state sc).

(** ** A sample world

    A wishlist of two listing pages.  Page 1 shows the games "A" and "B"
    and a card without title, and links to page 2, which shows "A" again
    and "C".  The detail page of "B" cannot be fetched. *)
Definition sample_base_url : string := "https://www.dekudeals.com/wishlist/x".

Definition sample_http_get (url : string) (hdrs : list (string * string))
  : option string :=
  if String.eqb url sample_base_url then Some "L1"%string
  else if String.eqb url (sample_base_url +:+ "?page=2") then Some "L2"%string
  else if String.eqb url "https://www.dekudeals.com/items/b" then None
  else Some ("page of " +:+ url).

Definition sample_parse_listing (html : string) : listing_page :=
  if String.eqb html "L1" then
    mk_listing [mk_card (Some "A") (Some "$19.99") (Some "/items/a");
                mk_card None None None;
                mk_card (Some "B") (Some "1.234,56") (Some "/items/b")]%string
      false (Some true)
  else
    mk_listing [mk_card (Some "A") (Some "5") (Some "/items/a");
                mk_card (Some "C") None (Some "/items/c")]%string
      false None.

Definition sample_parse_detail (html : string) : detail_page :=
  mk_detail (Some "85") (Some "n/a")
    (Some [None; Some "2024-03-10"; Some "soon"; Some "2024-01-10"])%string.

Definition sample_parse_search (html : string) : search_result :=
  ResultLink (Some "/app/504230/"%string).

Definition sample_parse_app (html : string) : option string :=
  Some "97.5"%string.

Definition sample_dateutil_parse (s : string) : option parsed_date :=
  if String.eqb s "2024-03-10" then
    Some (Naive (mk_datetime 2024 3 10 0 0 0 0))
  else if String.eqb s "2024-01-10" then
    Some (Naive (mk_datetime 2024 1 10 0 0 0 0))
  else None.

(** The snapshot is written and read back as it is. *)
Definition sample_to_csv (df : frame) : option flat_cache :=
  Some (CsvFrame true df).

Definition sample_now : datetime := mk_datetime 2024 4 1 9 0 0 0.

Definition sample_get_game_data :=
  get_game_data sample_http_get sample_parse_listing sample_parse_detail
    sample_parse_search sample_parse_app sample_dateutil_parse sample_now
    sample_to_csv.

Definition sample_crawl :=
  crawl sample_http_get sample_parse_listing sample_parse_detail
    sample_parse_search sample_parse_app sample_dateutil_parse sample_now.

Definition sample_process_card :=
  process_card sample_http_get sample_parse_detail sample_parse_search
    sample_parse_app sample_dateutil_parse sample_now.

(** Nothing stored, nothing cached; every write succeeds. *)
Definition empty_state : state :=
  mk_state [] CsvMissing ∅ [] [] (fun _ => true) (fun _ text => Some text).

(** A stored record of the game "A". *)
Definition stored_A : game :=
  mk_game "A" (Some 19.99%Q) None (Some 85) None (Some 97.5%Q)
    (Some "2024-03-10"%string) (Some 60%Q) (Some 22).

Definition state_with_A : state := set_db empty_state [stored_A].

Definition state_with_snapshot : state :=
  set_csv empty_state (CsvFrame true [stored_A]).

(** ** A world with an oversized score

    One listing page with the card of the game "A", whose detail page
    shows the Metacritic score 9223372036854775808, which is 2^63; the
    search finds nothing. *)
Definition oversized_parse_listing (html : string) : listing_page :=
  mk_listing [mk_card (Some "A") (Some "$19.99") (Some "/items/a")]%string
    false None.

Definition oversized_parse_detail (html : string) : detail_page :=
  mk_detail (Some "9223372036854775808"%string) None None.

Definition oversized_get_game_data :=
  get_game_data sample_http_get oversized_parse_listing
    oversized_parse_detail (fun _ => NoResult) (fun _ => None)
    sample_dateutil_parse sample_now sample_to_csv.

(** The page number of a listing GET. *)
Definition listing_page_of (r : request) : option nat :=
  match req_kind r with
  | ListingGet page => Some page
  | _ => None
  end.

(* ===================================================================== *)
(** * Part II: properties *)
(* ===================================================================== *)

(** ** Strings *)

#[local] Arguments Ascii.eqb : simpl never.
#[local] Arguments re_digit : simpl never.

Lemma str_app_cons c a b : String c a +:+ b = String c (a +:+ b).
Proof. reflexivity. Qed.

Lemma str_forallb_app p s t :
  str_forallb p (s +:+ t) = str_forallb p s && str_forallb p t.
Proof.
  induction s as [|c s IH]; simpl; [reflexivity|].
  rewrite IH. now rewrite andb_assoc.
Qed.

Lemma str_length_app s t :
  String.length (s +:+ t) = (String.length s + String.length t)%nat.
Proof. induction s as [|c s IH]; simpl; [reflexivity|now rewrite IH]. Qed.

Lemma re_digit_not_dot c : re_digit c = true -> Ascii.eqb c "." = false.
Proof.
  intros H. destruct (Ascii.eqb_spec c "."); [subst; discriminate|reflexivity].
Qed.

Lemma re_digit_not_comma c : re_digit c = true -> Ascii.eqb c "," = false.
Proof.
  intros H. destruct (Ascii.eqb_spec c ","); [subst; discriminate|reflexivity].
Qed.

Lemma re_digit_isdigit c : re_digit c = true -> char_isdigit c = true.
Proof. unfold char_isdigit. now intros ->. Qed.

Lemma str_forallb_impl (p q : ascii -> bool) s :
  (forall c, p c = true -> q c = true) ->
  str_forallb p s = true -> str_forallb q s = true.
Proof.
  intros Hpq. induction s as [|c s IH]; simpl; [reflexivity|].
  intros [Hc Hs]%andb_true_iff. now rewrite (Hpq _ Hc), IH.
Qed.

(** The cleaned price text holds digits, commas and dots only. *)
Lemma re_sub_non_price_chars s :
  str_forallb price_char (re_sub_non_price s) = true.
Proof.
  induction s as [|c s IH]; simpl; [reflexivity|].
  destruct (price_char c) eqn:Hc; simpl; [now rewrite Hc|assumption].
Qed.

Lemma re_sub_non_price_id s :
  str_forallb price_char s = true -> re_sub_non_price s = s.
Proof.
  induction s as [|c s IH]; simpl; [reflexivity|].
  intros [Hc Hs]%andb_true_iff. now rewrite Hc, IH.
Qed.

(** Without comma and dot, a cleaned text is a run of decimal digits. *)
Lemma bare_digits s :
  str_forallb price_char s = true ->
  str_contains "," s = false -> str_contains "." s = false ->
  str_forallb re_digit s = true.
Proof.
  induction s as [|c s IH]; simpl; [reflexivity|].
  intros [Hc Hs]%andb_true_iff [Hc1 Hs1]%orb_false_iff [Hc2 Hs2]%orb_false_iff.
  rewrite IH by assumption. unfold price_char in Hc.
  rewrite (Ascii.eqb_sym c ","), Hc1, (Ascii.eqb_sym c "."), Hc2 in Hc.
  now rewrite !orb_false_r in Hc; rewrite Hc.
Qed.

Lemma str_replace_absent old new s :
  str_contains old s = false -> str_replace old new s = s.
Proof.
  induction s as [|c s IH]; simpl; [reflexivity|].
  intros [Hc Hs]%orb_false_iff. rewrite Ascii.eqb_sym, Hc. now rewrite IH.
Qed.

Lemma partition_dot_digits a :
  str_forallb re_digit a = true -> partition_dot a = (a, None).
Proof.
  induction a as [|c a IH]; simpl; [reflexivity|].
  intros [Hc Ha]%andb_true_iff. now rewrite (re_digit_not_dot _ Hc), IH.
Qed.

Lemma partition_dot_app a b :
  str_forallb re_digit a = true ->
  partition_dot (a +:+ String "." b) = (a, Some b).
Proof.
  induction a as [|c a IH]; simpl; [reflexivity|].
  intros [Hc Ha]%andb_true_iff. now rewrite (re_digit_not_dot _ Hc), IH.
Qed.

(** [float] of an integer literal. *)
Lemma python_float_digits s :
  str_truthy s = true -> str_forallb re_digit s = true ->
  python_float s = Some (inject_Z (digits_to_Z s)).
Proof.
  intros Hne Hd. unfold python_float.
  now rewrite (partition_dot_digits _ Hd), Hne, Hd.
Qed.

(** [float] of a literal with one dot. *)
Lemma python_float_point a b :
  str_forallb re_digit a = true -> str_forallb re_digit b = true ->
  str_truthy a || str_truthy b = true ->
  python_float (a +:+ String "." b)
  = Some (digits_to_Z (a +:+ b) # Z.to_pos (10 ^ Z.of_nat (String.length b))).
Proof.
  intros Ha Hb Hne. unfold python_float.
  now rewrite (partition_dot_app _ _ Ha), Ha, Hb, Hne.
Qed.

Lemma digits_to_Z_acc_app acc a b :
  digits_to_Z_acc acc (a +:+ b) = digits_to_Z_acc (digits_to_Z_acc acc a) b.
Proof. revert acc. induction a as [|c a IH]; simpl; intros; [reflexivity|apply IH]. Qed.

Lemma digits_to_Z_acc_shift acc b :
  digits_to_Z_acc acc b
  = acc * 10 ^ Z.of_nat (String.length b) + digits_to_Z b.
Proof.
  unfold digits_to_Z. revert acc.
  induction b as [|c b IH]; intros acc.
  - simpl. lia.
  - cbn [digits_to_Z_acc String.length]. rewrite IH, (IH (10 * 0 + _)).
    rewrite Nat2Z.inj_succ, Z.pow_succ_r by lia. ring.
Qed.

(** The digits of [a] followed by those of [b]: [a] shifted, plus [b]. *)
Lemma digits_to_Z_app a b :
  digits_to_Z (a +:+ b)
  = digits_to_Z a * 10 ^ Z.of_nat (String.length b) + digits_to_Z b.
Proof.
  unfold digits_to_Z at 1. rewrite digits_to_Z_acc_app.
  now rewrite digits_to_Z_acc_shift.
Qed.

Lemma str_take_drop n s : str_take n s +:+ str_drop n s = s.
Proof.
  revert s. induction n as [|n IH]; intros [|c s]; simpl; try reflexivity.
  now rewrite str_app_cons, IH.
Qed.

Lemma str_forallb_take p n s :
  str_forallb p s = true -> str_forallb p (str_take n s) = true.
Proof.
  revert s. induction n as [|n IH]; intros [|c s]; simpl; try reflexivity.
  intros [Hc Hs]%andb_true_iff. now rewrite Hc, IH.
Qed.

Lemma str_forallb_drop p n s :
  str_forallb p s = true -> str_forallb p (str_drop n s) = true.
Proof.
  revert s. induction n as [|n IH]; intros [|c s]; simpl; try tauto.
  intros [Hc Hs]%andb_true_iff. now apply IH.
Qed.

Lemma str_length_drop n s :
  String.length (str_drop n s) = (String.length s - n)%nat.
Proof.
  revert s. induction n as [|n IH]; intros [|c s]; simpl; try reflexivity.
  apply IH.
Qed.

Lemma slices_minus2 s :
  slice_to_minus2 s +:+ slice_from_minus2 s = s.
Proof. apply str_take_drop. Qed.

Lemma slice_from_minus2_length s :
  (2 <= String.length s)%nat -> String.length (slice_from_minus2 s) = 2%nat.
Proof. intros H. unfold slice_from_minus2. rewrite str_length_drop. lia. Qed.

Lemma str_truthy_length s : str_truthy s = true <-> (0 < String.length s)%nat.
Proof. destruct s; simpl; split; intros; try lia; try discriminate; reflexivity. Qed.

(** ** Price Parser *)

Lemma str_isdigit_digits s :
  str_forallb re_digit s = true -> str_isdigit s = str_truthy s.
Proof.
  intros H. unfold str_isdigit.
  rewrite (str_forallb_impl _ _ _ re_digit_isdigit H). apply andb_true_r.
Qed.

(** The bare-digit branch on a run of two or more digits. *)
Lemma parse_price_try_cents s :
  str_forallb re_digit s = true -> (2 <= String.length s)%nat ->
  parse_price_try s = Some (digits_to_Z s # 100, None).
Proof.
  intros Hd Hlen.
  assert (Hc : str_contains "," s = false).
  { clear Hlen. induction s as [|c s IH]; [reflexivity|].
    simpl in *. apply andb_true_iff in Hd as [Hc Hs].
    now rewrite Ascii.eqb_sym, (re_digit_not_comma _ Hc), IH. }
  assert (Hp : str_contains "." s = false).
  { clear Hlen Hc. induction s as [|c s IH]; [reflexivity|].
    simpl in *. apply andb_true_iff in Hd as [Hc Hs].
    now rewrite Ascii.eqb_sym, (re_digit_not_dot _ Hc), IH. }
  unfold parse_price_try. rewrite Hc, Hp, (str_isdigit_digits _ Hd).
  replace (str_truthy s) with true
    by (symmetry; apply str_truthy_length; lia).
  replace (2 <=? String.length s)%nat with true
    by (symmetry; apply Nat.leb_le; lia).
  change (slice_to_minus2 s +:+ "." +:+ slice_from_minus2 s)
    with (slice_to_minus2 s +:+ String "." (slice_from_minus2 s)).
  rewrite python_float_point.
  - rewrite slices_minus2, (slice_from_minus2_length _ Hlen). reflexivity.
  - now apply str_forallb_take.
  - now apply str_forallb_drop.
  - apply orb_true_iff. right. apply str_truthy_length.
    rewrite (slice_from_minus2_length _ Hlen). lia.
Qed.

Lemma no_sep_of_digits c s :
  re_digit c = false -> str_forallb re_digit s = true ->
  str_contains c s = false.
Proof.
  intros Hc. induction s as [|d s IH]; simpl; [reflexivity|].
  intros [Hd Hs]%andb_true_iff. rewrite (IH Hs), orb_false_r.
  destruct (Ascii.eqb_spec c d); [subst; congruence|reflexivity].
Qed.

(** C6: a price text whose cleaned form has neither comma nor dot.  Two or
    more digits: the last two are hundredths.  One digit: a whole amount.
    Empty: the price is 0.  Any shape that is not a run of digits: 0 with
    the unexpected-format warning.  In no case does the [try] body raise. *)
Theorem C6_bare_digit_rule (price_text : string) :
  let cleaned := re_sub_non_price price_text in
  str_contains "," cleaned = false ->
  str_contains "." cleaned = false ->
  (str_isdigit cleaned = true -> (2 <= String.length cleaned)%nat ->
     parse_price price_text = (digits_to_Z cleaned # 100, None)
     /\ (digits_to_Z cleaned # 100
         == inject_Z (digits_to_Z (slice_to_minus2 cleaned))
            + (digits_to_Z (slice_from_minus2 cleaned) # 100))%Q)
  /\ (str_isdigit cleaned = true -> String.length cleaned = 1%nat ->
      parse_price price_text = (inject_Z (digits_to_Z cleaned), None))
  /\ (cleaned = EmptyString -> fst (parse_price price_text) = 0%Q)
  /\ (str_isdigit cleaned = false ->
      parse_price price_text = (0%Q, Some UnexpectedFormat))
  /\ is_Some (parse_price_try cleaned).
Proof.
  intros cleaned Hc Hp.
  assert (Hd : str_forallb re_digit cleaned = true)
    by (apply bare_digits; [apply re_sub_non_price_chars|exact Hc|exact Hp]).
  pose proof (str_isdigit_digits _ Hd) as Hisd.
  assert (Hone : String.length cleaned = 1%nat ->
                 parse_price_try cleaned
                 = Some (inject_Z (digits_to_Z cleaned), None)).
  { intros Hlen. unfold parse_price_try. rewrite Hc, Hp, Hisd.
    replace (str_truthy cleaned) with true
      by (symmetry; apply str_truthy_length; lia).
    rewrite Hlen. simpl. rewrite python_float_digits; auto.
    apply str_truthy_length. lia. }
  assert (Hzero : str_isdigit cleaned = false ->
                  parse_price_try cleaned = Some (0%Q, Some UnexpectedFormat)).
  { intros Hf. unfold parse_price_try. now rewrite Hc, Hp, Hf. }
  repeat split.
  - unfold parse_price. fold cleaned.
    now rewrite (parse_price_try_cents _ Hd).
  - rewrite <- (slices_minus2 cleaned) at 1. rewrite digits_to_Z_app.
    rewrite (slice_from_minus2_length _ H0).
    unfold Qeq, Qplus, inject_Z; simpl. lia.
  - intros _ Hlen. unfold parse_price. fold cleaned. now rewrite Hone.
  - intros He. unfold parse_price. fold cleaned.
    rewrite Hzero; [reflexivity|]. now rewrite He.
  - intros Hf. unfold parse_price. fold cleaned. now rewrite Hzero.
  - destruct (str_isdigit cleaned) eqn:Hi.
    + destruct (le_lt_dec 2 (String.length cleaned)) as [Hl|Hl].
      * rewrite (parse_price_try_cents _ Hd Hl). eauto.
      * rewrite Hone; [eauto|].
        symmetry in Hisd. apply str_truthy_length in Hisd. lia.
    + rewrite (Hzero eq_refl). eauto.
Qed.

Lemma C6_bare_digit_rule_witness :
  parse_price "ARS$ 1135000" = (11350.00%Q, None)
  /\ parse_price "5" = (5%Q, None)
  /\ fst (parse_price "") = 0%Q
  /\ parse_price "free" = (0%Q, Some UnexpectedFormat).
Proof.
  split; [|split; [|split]].
  - apply (C6_bare_digit_rule "ARS$ 1135000"); [reflexivity..|simpl; lia].
  - apply (C6_bare_digit_rule "5"); reflexivity.
  - apply (C6_bare_digit_rule ""); reflexivity.
  - apply (C6_bare_digit_rule "free"); reflexivity.
Defined.

(** The text handed to [float] in the comma branch holds digits and dots,
    and at least one dot. *)
Lemma comma_numeric_str_chars s :
  str_forallb price_char s = true ->
  let n := str_replace "," "." (str_replace "." "" s) in
  str_forallb price_char n = true /\ str_contains "," n = false
  /\ str_contains "." n = str_contains "," s.
Proof.
  induction s as [|c s IH]; simpl; [auto|].
  intros [Hc Hs]%andb_true_iff. destruct (IH Hs) as (IH1 & IH2 & IH3).
  destruct (Ascii.eqb_spec c ".") as [->|Hdot].
  - change ("" +:+ str_replace "." "" s) with (str_replace "." "" s).
    rewrite IH1, IH2, IH3. auto.
  - simpl. destruct (Ascii.eqb_spec c ",") as [->|Hcomma].
    + change ("." +:+ ?x) with (String "." x). simpl.
      rewrite IH1, IH2. auto.
    + simpl. rewrite Hc, IH1, IH2, IH3.
      destruct (Ascii.eqb_spec "," c); [congruence|].
      destruct (Ascii.eqb_spec "." c); [congruence|]. auto.
Qed.

(** C1 (as amended): whenever the cleaned text has a comma, the dots are
    thousands separators and the comma is the decimal separator, that is,
    the text parses exactly like the dot-decimal text got by deleting its
    dots and turning its commas into dots.  Hence "1.234,56" parses to
    1234.56, like "1234.56"; "1,234.56" parses like "1.23456". *)
Theorem C1_comma_is_decimal_separator (price_text : string) :
  let cleaned := re_sub_non_price price_text in
  str_contains "," cleaned = true ->
  parse_price price_text
  = parse_price (str_replace "," "." (str_replace "." "" cleaned)).
Proof.
  intros cleaned Hcomma.
  destruct (comma_numeric_str_chars cleaned (re_sub_non_price_chars _))
    as (Hch & Hnc & Hdot).
  fold cleaned in Hdot. rewrite Hcomma in Hdot.
  unfold parse_price. fold cleaned.
  rewrite (re_sub_non_price_id _ Hch).
  unfold parse_price_try at 2. rewrite Hnc, Hdot.
  rewrite (str_replace_absent "," "" _ Hnc).
  unfold parse_price_try. now rewrite Hcomma.
Qed.

Lemma C1_comma_is_decimal_separator_witness :
  parse_price "1.234,56" = parse_price "1234.56"
  /\ parse_price "1,234.56" = parse_price "1.23456".
Proof.
  split.
  - apply (C1_comma_is_decimal_separator "1.234,56"). reflexivity.
  - apply (C1_comma_is_decimal_separator "1,234.56"). reflexivity.
Defined.

(** C1 fails as stated: "1,234.56" parses to 1.23456, which is neither
    1234.56 nor the value of "1.234,56". *)
Lemma C1_counterexample :
  parse_price "1,234.56" = (1.23456%Q, None)
  /\ parse_price "1.234,56" = (1234.56%Q, None)
  /\ ~ (fst (parse_price "1,234.56") == 1234.56)%Q
  /\ ~ (fst (parse_price "1,234.56") == fst (parse_price "1.234,56"))%Q.
Proof.
  repeat split; try reflexivity; intros H; vm_compute in H; discriminate.
Qed.

(** ** Cache file names *)

Lemma sanitize_cons c u :
  sanitize (String c u)
  = String (if Ascii.eqb c "/" || Ascii.eqb c ":" then "_"%char else c)
      (sanitize u).
Proof.
  unfold sanitize. simpl.
  destruct (Ascii.eqb_spec c "/") as [->|H1]; [reflexivity|].
  simpl. destruct (Ascii.eqb_spec c ":") as [->|H2]; reflexivity.
Qed.

Lemma sanitize_no_slash u : str_contains "/" (sanitize u) = false.
Proof.
  induction u as [|c u IH]; [reflexivity|].
  rewrite sanitize_cons. simpl. rewrite IH, orb_false_r.
  destruct (Ascii.eqb_spec c "/") as [->|H1]; [reflexivity|].
  destruct (Ascii.eqb_spec c ":") as [->|H2]; [reflexivity|].
  simpl. destruct (Ascii.eqb_spec "/" c); congruence.
Qed.

Lemma fold_separator_eq_iff c d :
  (if Ascii.eqb c "/" || Ascii.eqb c ":" then "_"%char else c)
  = (if Ascii.eqb d "/" || Ascii.eqb d ":" then "_"%char else d)
  <-> c = d \/ (is_separator c /\ is_separator d).
Proof.
  unfold is_separator.
  destruct (Ascii.eqb_spec c "/") as [->|Hc1];
    [|destruct (Ascii.eqb_spec c ":") as [->|Hc2]];
    (destruct (Ascii.eqb_spec d "/") as [->|Hd1];
     [|destruct (Ascii.eqb_spec d ":") as [->|Hd2]]);
    simpl; split; intros H; try tauto; try (subst; tauto);
    try (destruct H as [H|[H1 H2]]; [congruence|];
         intuition congruence).
Qed.

Lemma sanitize_eq_iff u v :
  sanitize u = sanitize v <-> same_modulo_separators u v.
Proof.
  revert v. induction u as [|c u IH]; intros [|d v]; try (simpl; easy).
  - rewrite sanitize_cons. simpl. split; [discriminate|tauto].
  - rewrite sanitize_cons. simpl. split; [discriminate|tauto].
  - rewrite !sanitize_cons. cbn [same_modulo_separators].
    rewrite <- IH, <- fold_separator_eq_iff. split.
    + intros H. injection H as H1 H2. now split.
    + intros [-> ->]. reflexivity.
Qed.

Lemma str_app_inv_tail (s1 s2 t : string) :
  s1 +:+ t = s2 +:+ t -> s1 = s2.
Proof.
  intros H.
  assert (Hlen : String.length s1 = String.length s2).
  { apply (f_equal String.length) in H. rewrite !str_length_app in H. lia. }
  revert s2 H Hlen. induction s1 as [|c s1 IH]; intros [|d s2] H Hlen;
    try discriminate; [reflexivity|].
  rewrite !str_app_cons in H. injection H as -> H.
  f_equal. apply IH; [assumption|]. simpl in Hlen. lia.
Qed.

Lemma str_app_inv_head (p s1 s2 : string) :
  p +:+ s1 = p +:+ s2 -> s1 = s2.
Proof.
  induction p as [|c p IH]; [trivial|].
  rewrite !str_app_cons. intros [= H]. auto.
Qed.

Lemma os_path_join_relative (b : string) :
  str_contains "/" b = false ->
  os_path_join CACHE_DIR b = CACHE_DIR +:+ "/" +:+ b.
Proof.
  destruct b as [|c b]; [reflexivity|]. simpl. intros [Hc _]%orb_false_iff.
  unfold os_path_join.
  destruct c as [[] [] [] [] [] [] [] []]; try reflexivity. discriminate.
Qed.

Lemma str_contains_app c s t :
  str_contains c (s +:+ t) = str_contains c s || str_contains c t.
Proof.
  induction s as [|d s IH]; [reflexivity|].
  rewrite str_app_cons. simpl. now rewrite IH, orb_assoc.
Qed.

Lemma get_html_cache_filename_eq url :
  get_html_cache_filename url
  = "html_cache/" +:+ sanitize url +:+ ".html".
Proof.
  unfold get_html_cache_filename. fold (sanitize url).
  rewrite os_path_join_relative; [reflexivity|].
  now rewrite str_contains_app, sanitize_no_slash.
Qed.

Lemma get_steamdb_cache_filename_eq url :
  get_steamdb_cache_filename url
  = "html_cache/steamdb_" +:+ sanitize url +:+ ".html".
Proof.
  unfold get_steamdb_cache_filename. fold (sanitize url).
  rewrite os_path_join_relative; [reflexivity|].
  change ("steamdb_" +:+ sanitize url +:+ ".html")
    with ("steamdb_" +:+ (sanitize url +:+ ".html")).
  now rewrite !str_contains_app, sanitize_no_slash.
Qed.

(** C9 (as amended): in each namespace the file name is a function of the
    URL, and two URLs get the same file name exactly when they have the
    same length and agree at every position up to an exchange among "/",
    ":" and "_". *)
Theorem C9_filename_collisions (u v : string) :
  (get_html_cache_filename u = get_html_cache_filename v
   <-> same_modulo_separators u v)
  /\ (get_steamdb_cache_filename u = get_steamdb_cache_filename v
      <-> same_modulo_separators u v).
Proof.
  rewrite !get_html_cache_filename_eq, !get_steamdb_cache_filename_eq.
  rewrite <- sanitize_eq_iff. split; split.
  - intros H. apply (str_app_inv_head "html_cache/") in H.
    now apply (str_app_inv_tail _ _ ".html") in H.
  - now intros ->.
  - intros H. apply (str_app_inv_head "html_cache/steamdb_") in H.
    now apply (str_app_inv_tail _ _ ".html") in H.
  - now intros ->.
Qed.

(** C9 fails as stated: two distinct URLs share their cache file, in the
    general namespace and in the external-rating one. *)
Lemma C9_counterexample :
  "https://www.dekudeals.com/items/a/b"
  <> "https://www.dekudeals.com/items/a_b"
  /\ get_html_cache_filename "https://www.dekudeals.com/items/a/b"
     = get_html_cache_filename "https://www.dekudeals.com/items/a_b"
  /\ get_steamdb_cache_filename "https://steamdb.info/search/?a=app&q=a/b"
     = get_steamdb_cache_filename "https://steamdb.info/search/?a=app&q=a:b"
  /\ "https://steamdb.info/search/?a=app&q=a/b"
     <> "https://steamdb.info/search/?a=app&q=a:b".
Proof.
  split; [|split; [|split]].
  - intros H. apply String.eqb_eq in H. vm_compute in H. discriminate H.
  - vm_compute. reflexivity.
  - vm_compute. reflexivity.
  - intros H. apply String.eqb_eq in H. vm_compute in H. discriminate H.
Qed.

(** ** Calendar arithmetic *)

Lemma days_before_year_succ y :
  days_before_year (y + 1)
  = days_before_year y + 365 + (if is_leap y then 1 else 0).
Proof.
  unfold days_before_year, is_leap.
  replace (y + 1 - 1) with y by lia.
  destruct (Z.eqb_spec (y mod 4) 0); destruct (Z.eqb_spec (y mod 100) 0);
    destruct (Z.eqb_spec (y mod 400) 0); simpl;
    Z.div_mod_to_equations; lia.
Qed.

Lemma days_before_year_mono y1 y2 :
  y1 <= y2 -> days_before_year y1 <= days_before_year y2.
Proof.
  unfold days_before_year. intros H. Z.div_mod_to_equations. lia.
Qed.

Ltac enum_month m :=
  let H := fresh in
  assert (H : m = 1 \/ m = 2 \/ m = 3 \/ m = 4 \/ m = 5 \/ m = 6 \/ m = 7
              \/ m = 8 \/ m = 9 \/ m = 10 \/ m = 11 \/ m = 12) by lia;
  repeat (destruct H as [H|H]); subst m.

(** Within a year the day number grows with the month. *)
Lemma day_of_year_month_lt y m1 d1 m2 d2 :
  1 <= m1 <= 12 -> 1 <= m2 <= 12 ->
  d1 <= days_in_month y m1 -> 1 <= d2 -> m1 < m2 ->
  days_before_month y m1 + d1 < days_before_month y m2 + d2.
Proof.
  intros Hm1 Hm2. unfold days_in_month, days_before_month.
  destruct (is_leap y); enum_month m1; enum_month m2; simpl; lia.
Qed.

(** The last day of a year is day 365, or 366 in a leap year. *)
Lemma day_of_year_bound y m d :
  1 <= m <= 12 -> d <= days_in_month y m ->
  days_before_month y m + d <= 365 + (if is_leap y then 1 else 0).
Proof.
  intros Hm. unfold days_in_month, days_before_month.
  destruct (is_leap y); enum_month m; simpl; lia.
Qed.

Lemma days_before_month_nonneg y m :
  1 <= m <= 12 -> 0 <= days_before_month y m.
Proof.
  intros Hm. unfold days_before_month.
  destruct (is_leap y); enum_month m; simpl; lia.
Qed.

(** Day numbers grow with the year. *)
Lemma toordinal_year_lt a b :
  valid_datetime a -> valid_datetime b -> dt_year a < dt_year b ->
  toordinal a < toordinal b.
Proof.
  intros (Hya & Hma & Hda & _) (Hyb & Hmb & Hdb & _) Hlt. unfold toordinal.
  pose proof (day_of_year_bound (dt_year a) _ _ Hma (proj2 Hda)).
  pose proof (days_before_month_nonneg (dt_year b) _ Hmb).
  pose proof (days_before_year_succ (dt_year a)).
  pose proof (days_before_year_mono (dt_year a + 1) (dt_year b)).
  lia.
Qed.

Lemma toordinal_month_lt a b :
  valid_datetime a -> valid_datetime b -> dt_year a = dt_year b ->
  dt_month a < dt_month b -> toordinal a < toordinal b.
Proof.
  intros (Hya & Hma & Hda & _) (Hyb & Hmb & Hdb & _) Hy Hlt. unfold toordinal.
  rewrite Hy in *.
  pose proof (day_of_year_month_lt (dt_year b) _ (dt_day a) _ (dt_day b)
                Hma Hmb (proj2 Hda) (proj1 Hdb) Hlt).
  lia.
Qed.

(** ** Order and differences of datetimes *)

Lemma timedelta_microseconds_eq a b :
  timedelta_microseconds a b = to_microseconds a - to_microseconds b.
Proof. unfold timedelta_microseconds, to_microseconds. ring. Qed.

(** On valid datetimes the field-wise comparison is the comparison of the
    instants. *)
Lemma datetime_cmp_spec a b :
  valid_datetime a -> valid_datetime b ->
  datetime_cmp a b = (to_microseconds a ?= to_microseconds b).
Proof.
  intros Va Vb.
  pose proof (toordinal_year_lt a b Va Vb) as Hy1.
  pose proof (toordinal_year_lt b a Vb Va) as Hy2.
  pose proof (toordinal_month_lt a b Va Vb) as Hm1.
  pose proof (toordinal_month_lt b a Vb Va) as Hm2.
  destruct Va as (_ & _ & _ & Hha & Hmia & Hsa & Hua).
  destruct Vb as (_ & _ & _ & Hhb & Hmib & Hsb & Hub).
  unfold datetime_cmp, to_microseconds, microseconds_per_day.
  assert (Ho : dt_year a = dt_year b -> dt_month a = dt_month b ->
               toordinal a - toordinal b = dt_day a - dt_day b).
  { unfold toordinal. intros -> ->. ring. }
  symmetry.
  destruct (Z.compare_spec (dt_year a) (dt_year b)) as [Ey|Ly|Ly];
    [|apply Z.compare_lt_iff; lia|apply Z.compare_gt_iff; lia].
  destruct (Z.compare_spec (dt_month a) (dt_month b)) as [Em|Lm|Lm];
    [|apply Z.compare_lt_iff; specialize (Hm1 Ey Lm); lia
     |apply Z.compare_gt_iff; specialize (Hm2 (eq_sym Ey) Lm); lia].
  specialize (Ho Ey Em).
  destruct (Z.compare_spec (dt_day a) (dt_day b)) as [Ed|Ld|Ld];
    [|apply Z.compare_lt_iff; lia|apply Z.compare_gt_iff; lia].
  destruct (Z.compare_spec (dt_hour a) (dt_hour b)) as [Eh|Lh|Lh];
    [|apply Z.compare_lt_iff; lia|apply Z.compare_gt_iff; lia].
  destruct (Z.compare_spec (dt_minute a) (dt_minute b)) as [Emi|Lmi|Lmi];
    [|apply Z.compare_lt_iff; lia|apply Z.compare_gt_iff; lia].
  destruct (Z.compare_spec (dt_second a) (dt_second b)) as [Es|Ls|Ls];
    [|apply Z.compare_lt_iff; lia|apply Z.compare_gt_iff; lia].
  destruct (Z.compare_spec (dt_microsecond a) (dt_microsecond b))
    as [Eu|Lu|Lu];
    [apply Z.compare_eq_iff|apply Z.compare_lt_iff|apply Z.compare_gt_iff];
    lia.
Qed.

Lemma datetime_ltb_spec a b :
  valid_datetime a -> valid_datetime b ->
  datetime_ltb a b = true <-> to_microseconds a < to_microseconds b.
Proof.
  intros Va Vb. unfold datetime_ltb. rewrite (datetime_cmp_spec a b Va Vb).
  destruct (Z.compare_spec (to_microseconds a) (to_microseconds b));
    split; intros; try lia; try discriminate; reflexivity.
Qed.

Lemma datetime_not_ltb a b :
  valid_datetime a -> valid_datetime b ->
  datetime_ltb a b = false <-> to_microseconds b <= to_microseconds a.
Proof.
  intros Va Vb. pose proof (datetime_ltb_spec a b Va Vb) as H.
  destruct (datetime_ltb a b); destruct H as [H1 H2]; split; intros H3;
    try discriminate; try reflexivity.
  - specialize (H1 eq_refl). lia.
  - destruct (Z_lt_le_dec (to_microseconds a) (to_microseconds b)) as [L|L];
      [specialize (H2 L); discriminate|exact L].
Qed.

(** A difference of a later and an earlier datetime has no negative days. *)
Lemma sub_days_nonneg a b :
  valid_datetime a -> valid_datetime b ->
  datetime_ltb a b = false -> 0 <= sub_days a b.
Proof.
  intros Va Vb H. apply (datetime_not_ltb a b Va Vb) in H.
  unfold sub_days. rewrite timedelta_microseconds_eq.
  apply Z.div_pos; [lia|reflexivity].
Qed.

(** ** Sorting the dates *)

Lemma insert_desc_perm x l : Permutation (insert_desc x l) (x :: l).
Proof.
  induction l as [|y l IH]; simpl; [reflexivity|].
  destruct (datetime_ltb x y); [|reflexivity].
  rewrite IH. apply perm_swap.
Qed.

Lemma sort_reverse_perm l : Permutation (sort_reverse l) l.
Proof.
  induction l as [|x l IH]; simpl; [reflexivity|].
  rewrite insert_desc_perm. now constructor.
Qed.

Lemma sort_reverse_valid l :
  Forall valid_datetime l -> Forall valid_datetime (sort_reverse l).
Proof.
  intros H. eapply Permutation_Forall; [|exact H].
  symmetry. apply sort_reverse_perm.
Qed.

Lemma insert_desc_sorted x l :
  valid_datetime x -> Forall valid_datetime l ->
  descending l -> descending (insert_desc x l).
Proof.
  unfold descending. intros Vx Vl Hs.
  induction Hs as [|y l Hs IH Hy]; simpl.
  - repeat constructor.
  - apply Forall_cons_iff in Vl as [Vy Vl].
    destruct (datetime_ltb x y) eqn:Hxy.
    + constructor; [now apply IH|].
      eapply Permutation_Forall; [symmetry; apply insert_desc_perm|].
      constructor; [|assumption].
      apply (datetime_not_ltb y x Vy Vx).
      apply (datetime_ltb_spec x y Vx Vy) in Hxy. lia.
    + constructor; [now constructor|].
      constructor; [assumption|].
      rewrite Forall_forall in Hy, Vl |- *. intros z Hz.
      apply (datetime_not_ltb x z Vx (Vl z Hz)).
      apply (datetime_not_ltb x y Vx Vy) in Hxy.
      pose proof (proj1 (datetime_not_ltb y z Vy (Vl z Hz)) (Hy z Hz)). lia.
Qed.

(** [sort] leaves a descending permutation of the valid dates. *)
Lemma sort_reverse_sorted l :
  Forall valid_datetime l -> descending (sort_reverse l).
Proof.
  induction 1 as [|x l Vx Vl IH]; simpl; [constructor|].
  apply insert_desc_sorted; auto using sort_reverse_valid.
Qed.

(** In a descending list every consecutive difference is non-negative. *)
Lemma consecutive_days_nonneg l :
  Forall valid_datetime l -> descending l ->
  Forall (fun g => 0 <= g) (consecutive_days l).
Proof.
  unfold descending. intros Vl Hs.
  induction Hs as [|a l Hs IH Ha]; [constructor|].
  apply Forall_cons_iff in Vl as [Va Vl].
  destruct l as [|b l]; [constructor|].
  cbn [consecutive_days]. constructor; [|now apply IH].
  apply sub_days_nonneg; auto.
  - now apply Forall_cons_iff in Vl as [Vb _].
  - now apply Forall_cons_iff in Ha as [Hab _].
Qed.

Lemma consecutive_days_length l :
  length (consecutive_days l) = pred (length l).
Proof.
  induction l as [|a [|b l] IH]; try reflexivity.
  cbn [consecutive_days length] in *. now rewrite IH.
Qed.

Lemma filter_nonneg_id (l : list Z) :
  Forall (fun g => 0 <= g) l -> filter (fun g => 0 <= g) l = l.
Proof.
  induction 1 as [|g l Hg Hl IH]; [reflexivity|].
  rewrite filter_cons_True by assumption. now rewrite IH.
Qed.

(** ** Discount Statistics Calculator *)

Lemma datetime_ltb_irrefl d : datetime_ltb d d = false.
Proof.
  unfold datetime_ltb, datetime_cmp. now rewrite !Z.compare_refl.
Qed.

(** The head of the sorted dates is the latest of them. *)
Lemma sort_reverse_head D d0 rest :
  Forall valid_datetime D -> sort_reverse D = d0 :: rest -> is_latest d0 D.
Proof.
  intros VD Hs. pose proof (sort_reverse_sorted D VD) as Hd.
  pose proof (sort_reverse_perm D) as Hp. rewrite Hs in Hd, Hp.
  split.
  - eapply Permutation_in; [exact Hp|now left].
  - intros d Hd'. apply (Permutation_in _ (Permutation_sym Hp)) in Hd'.
    destruct Hd' as [<-|Hin]; [apply datetime_ltb_irrefl|].
    apply StronglySorted_inv in Hd as [_ Hall].
    rewrite List.Forall_forall in Hall. auto.
Qed.

(** With two dates or more every gap is kept and the average is set. *)
Lemma average_of_two_or_more now D :
  Forall valid_datetime D -> (2 <= length D)%nat ->
  Forall (fun g => 0 <= g) (consecutive_days (sort_reverse D))
  /\ st_avg_days_between_discounts (discount_statistics now D)
     = Some (mean_days (consecutive_days (sort_reverse D))).
Proof.
  intros VD Hlen.
  pose proof (consecutive_days_nonneg _ (sort_reverse_valid D VD)
                (sort_reverse_sorted D VD)) as Hnn.
  split; [exact Hnn|].
  pose proof (Permutation_length (sort_reverse_perm D)) as Hl.
  unfold discount_statistics.
  destruct (sort_reverse D) as [|d0 [|d1 rest]] eqn:Hs;
    simpl in Hl; try lia.
  cbn [st_avg_days_between_discounts].
  replace (1 <? length (d0 :: d1 :: rest))%nat with true by reflexivity.
  rewrite (filter_nonneg_id _ Hnn). reflexivity.
Qed.

(** From year 1000 on [strftime] prints the ISO calendar date. *)
Lemma four_digit_years :
  forallb (fun n => (4 <=? String.length (str_of_nat n))%nat)
    (seq (Z.to_nat 1000) (Z.to_nat 9000))
  = true.
Proof. vm_compute. reflexivity. Qed.

Lemma strftime_Ymd_iso d :
  1000 <= dt_year d <= 9999 -> strftime_Ymd d = isoformat_date d.
Proof.
  intros Hy. unfold strftime_Ymd, isoformat_date. f_equal.
  unfold zero_pad.
  pose proof four_digit_years as H. rewrite forallb_forall in H.
  specialize (H (Z.to_nat (dt_year d))).
  rewrite Nat.leb_le in H.
  replace (4 - String.length (str_of_nat (Z.to_nat (dt_year d))))%nat
    with 0%nat; [reflexivity|].
  symmetry. apply Nat.sub_0_le. apply H. apply in_seq. lia.
Qed.

(** [timedelta.days]: the whole days of a difference, rounded down. *)
Lemma sub_days_floor a b :
  sub_days a b * microseconds_per_day
  <= to_microseconds a - to_microseconds b
  < (sub_days a b + 1) * microseconds_per_day.
Proof.
  unfold sub_days.
  replace (to_microseconds a - to_microseconds b)
    with (timedelta_microseconds a b)
    by (unfold timedelta_microseconds, to_microseconds; ring).
  assert (Hpos : 0 < microseconds_per_day) by reflexivity.
  pose proof (Z.mul_div_le (timedelta_microseconds a b) _ Hpos).
  pose proof (Z.mul_succ_div_gt (timedelta_microseconds a b) _ Hpos).
  lia.
Qed.

Lemma all_naive_map D : all_naive (map Naive D) = Some D.
Proof. induction D as [|d D IH]; simpl; [reflexivity|now rewrite IH]. Qed.

(** On dates without time zone the block computes the statistics. *)
Lemma history_statistics_naive now D :
  history_statistics now (map Naive D) = Some (discount_statistics now D).
Proof.
  destruct D as [|d D]; [reflexivity|].
  unfold history_statistics. now rewrite all_naive_map.
Qed.

(** One date with a time zone makes the block raise. *)
Lemma history_statistics_aware now dates :
  Exists (fun p => naive_part p = None) dates ->
  history_statistics now dates = None.
Proof.
  intros H.
  assert (Hn : all_naive dates = None).
  { induction H as [p dates Hp|p dates _ IH]; simpl.
    - now rewrite Hp.
    - rewrite IH. now destruct (naive_part p). }
  unfold history_statistics. rewrite Hn. now destruct dates.
Qed.

(** C3 (as amended): for parsed dates none of which carries a time zone.
    No date, no field.  Otherwise [last_discount] is the latest date as
    [strftime('%Y-%m-%d')] prints it, which from year 1000 on is its ISO
    calendar date, and [days_since_last_discount] is the number of whole
    days, rounded down, from that date to now; from two dates on, the
    average is the mean of the non-negative consecutive day gaps of the
    dates in descending order.  The dates 2024-01-10, 2024-02-09,
    2024-03-10 give 2024-03-10 and 30, and on 2024-04-01 at 9:00 the day
    count 22. *)
Theorem C3_discount_statistics (now : datetime) (D : list datetime) :
  Forall valid_datetime D ->
  (exists stats,
     history_statistics now (map Naive D) = Some stats
     /\ (D = [] -> stats = mk_stats None None None)
     /\ (D <> [] -> exists d0 days,
           is_latest d0 D
           /\ st_last_discount stats = Some (strftime_Ymd d0)
           /\ (1000 <= dt_year d0 ->
               st_last_discount stats = Some (isoformat_date d0))
           /\ st_days_since_last_discount stats = Some days
           /\ days * microseconds_per_day
              <= to_microseconds now - to_microseconds d0
              < (days + 1) * microseconds_per_day)
     /\ ((2 <= length D)%nat -> exists S,
           Permutation D S /\ descending S
           /\ st_avg_days_between_discounts stats
              = Some (mean_days
                        (filter (fun g => 0 <= g) (consecutive_days S)))))
  /\ (exists stats avg,
        history_statistics now
          [Naive (mk_datetime 2024 1 10 0 0 0 0);
           Naive (mk_datetime 2024 2 9 0 0 0 0);
           Naive (mk_datetime 2024 3 10 0 0 0 0)] = Some stats
        /\ st_last_discount stats = Some "2024-03-10"%string
        /\ st_avg_days_between_discounts stats = Some avg
        /\ (avg == 30)%Q)
  /\ (exists stats,
        history_statistics (mk_datetime 2024 4 1 9 0 0 0)
          [Naive (mk_datetime 2024 1 10 0 0 0 0);
           Naive (mk_datetime 2024 2 9 0 0 0 0);
           Naive (mk_datetime 2024 3 10 0 0 0 0)] = Some stats
        /\ st_days_since_last_discount stats = Some 22).
Proof.
  intros VD. split; [|split].
  - exists (discount_statistics now D).
    split; [apply history_statistics_naive|].
    split; [|split].
    + intros ->. reflexivity.
    + intros Hne.
      destruct (sort_reverse D) as [|d0 rest] eqn:Hs.
      * pose proof (Permutation_length (sort_reverse_perm D)) as Hl.
        rewrite Hs in Hl. destruct D; [congruence|discriminate].
      * exists d0, (sub_days now d0).
        pose proof (sort_reverse_head D d0 rest VD Hs) as Hlatest.
        assert (Hv : valid_datetime d0).
        { rewrite List.Forall_forall in VD. apply VD, Hlatest. }
        unfold discount_statistics. rewrite Hs.
        cbn [st_last_discount st_days_since_last_discount].
        split; [exact Hlatest|]. split; [reflexivity|].
        split; [|split; [reflexivity|apply sub_days_floor]].
        intros Hy. rewrite strftime_Ymd_iso; [reflexivity|].
        destruct Hv as [Hyear _]. lia.
    + intros Hlen. exists (sort_reverse D).
      destruct (average_of_two_or_more now D VD Hlen) as [Hnn Havg].
      split; [symmetry; apply sort_reverse_perm|].
      split; [now apply sort_reverse_sorted|].
      now rewrite (filter_nonneg_id _ Hnn).
  - eexists _, _. split; [reflexivity|]. split; [reflexivity|].
    split; reflexivity.
  - eexists. split; reflexivity.
Qed.

Ltac valid_dates :=
  repeat (apply List.Forall_cons; [vm_compute; intuition discriminate|]);
  apply List.Forall_nil.

Lemma C3_discount_statistics_witness :
  let D := [mk_datetime 2024 3 10 0 0 0 0; mk_datetime 2023 12 25 0 0 0 0] in
  let now := mk_datetime 2024 4 1 12 30 0 0 in
  exists stats d0 days S,
    history_statistics now (map Naive D) = Some stats
    /\ is_latest d0 D
    /\ st_last_discount stats = Some (isoformat_date d0)
    /\ st_days_since_last_discount stats = Some days
    /\ days * microseconds_per_day
       <= to_microseconds now - to_microseconds d0
       < (days + 1) * microseconds_per_day
    /\ Permutation D S /\ descending S
    /\ st_avg_days_between_discounts stats
       = Some (mean_days (filter (fun g => 0 <= g) (consecutive_days S))).
Proof.
  intros D now.
  assert (VD : Forall valid_datetime D).
  { unfold D. valid_dates. }
  destruct (C3_discount_statistics now D VD)
    as ((stats & Hs & _ & H1 & H2) & _ & _).
  destruct H1 as (d0 & days & Hl & Hd & Hiso & Hdays & Hfloor);
    [discriminate|].
  destruct H2 as (S & Hp & Hdesc & Ha); [simpl; lia|].
  exists stats, d0, days, S.
  split; [exact Hs|]. split; [exact Hl|].
  split.
  { apply Hiso. destruct Hl as [[<-|[<-|[]]] _]; simpl; lia. }
  auto 10.
Defined.

(** C3 fails as stated.  A parsed date that carries a time zone, here
    2024-03-10 00:00 UTC, makes the block raise, so no field is computed;
    and the date 0999-01-01 is stored as [999-01-01], which is not its
    ISO calendar date. *)
Lemma C3_counterexample :
  let now := mk_datetime 2024 4 1 12 30 0 0 in
  let early := mk_datetime 999 1 1 0 0 0 0 in
  valid_datetime early
  /\ history_statistics now [Aware (mk_datetime 2024 3 10 0 0 0 0) 0] = None
  /\ (st_last_discount <$> history_statistics now [Naive early])
     = Some (Some "999-01-01"%string)
  /\ isoformat_date early = "0999-01-01"%string.
Proof.
  intros now early. split; [vm_compute; intuition discriminate|].
  split; [reflexivity|]. split; reflexivity.
Qed.

(** C10 (as amended): with two dates or more, none of which carries a
    time zone, the block completes, every consecutive gap of the sorted
    dates is non-negative, the filter drops none of them, and the average
    is present. *)
Theorem C10_average_always_present (now : datetime) (D : list datetime) :
  Forall valid_datetime D -> (2 <= length D)%nat ->
  let gaps := consecutive_days (sort_reverse D) in
  Forall (fun g => 0 <= g) gaps
  /\ filter (fun g => 0 <= g) gaps = gaps
  /\ gaps <> []
  /\ exists stats,
       history_statistics now (map Naive D) = Some stats
       /\ st_avg_days_between_discounts stats = Some (mean_days gaps).
Proof.
  intros VD Hlen gaps.
  destruct (average_of_two_or_more now D VD Hlen) as [Hnn Havg].
  split; [exact Hnn|]. split; [now apply filter_nonneg_id|].
  split.
  - intros He. apply (f_equal (@length Z)) in He. unfold gaps in He.
    rewrite consecutive_days_length in He.
    rewrite (Permutation_length (sort_reverse_perm D)) in He.
    simpl in He. lia.
  - exists (discount_statistics now D).
    split; [apply history_statistics_naive|exact Havg].
Qed.

Lemma C10_average_always_present_witness :
  let D := [mk_datetime 2024 3 10 0 0 0 0; mk_datetime 2024 3 10 0 0 0 0] in
  let now := mk_datetime 2024 4 1 0 0 0 0 in
  filter (fun g => 0 <= g) (consecutive_days (sort_reverse D))
  = consecutive_days (sort_reverse D)
  /\ exists stats,
       history_statistics now (map Naive D) = Some stats
       /\ st_avg_days_between_discounts stats
          = Some (mean_days (consecutive_days (sort_reverse D))).
Proof.
  intros D now.
  assert (VD : Forall valid_datetime D).
  { unfold D. valid_dates. }
  assert (Hlen : (2 <= length D)%nat) by (simpl; lia).
  destruct (C10_average_always_present now D VD Hlen)
    as (_ & Hf & _ & Hs).
  split; assumption.
Defined.

(** C10 fails as stated: a history table whose two dates parse, each with
    a time zone, makes the block raise; the card gets no record, and no
    average. *)
Lemma C10_counterexample :
  let now := mk_datetime 2024 4 1 0 0 0 0 in
  let dates := [Aware (mk_datetime 2024 3 10 0 0 0 0) 0;
                Aware (mk_datetime 2024 1 10 0 0 0 0) 0] in
  length dates = 2%nat
  /\ history_statistics now dates = None
  /\ (history_statistics now dates
      ≫= st_avg_days_between_discounts) = None.
Proof. intros now dates. repeat split. Qed.

(** ** Recommendation Engine *)

Lemma xleb_total a b : xleb a b = false -> xleb b a = true.
Proof.
  destruct a as [x|], b as [y|]; simpl; try congruence; intros H.
  apply Qle_bool_iff. destruct (Qlt_le_dec y x) as [L|L].
  - now apply Qlt_le_weak.
  - apply Qle_bool_iff in L. congruence.
Qed.

Lemma xleb_trans a b c : xleb a b = true -> xleb b c = true -> xleb a c = true.
Proof.
  destruct a as [x|], b as [y|], c as [z|]; simpl; try congruence.
  rewrite !Qle_bool_iff. apply Qle_trans.
Qed.

Lemma score_ge_trans a b c : score_ge a b -> score_ge b c -> score_ge a c.
Proof. unfold score_ge. eauto using xleb_trans. Qed.

Lemma insert_by_perm {A} (before : A -> A -> bool) x l :
  Permutation (x :: l) (insert_by before x l).
Proof.
  induction l as [|y l IH]; simpl; [reflexivity|].
  destruct (before x y); [reflexivity|].
  rewrite perm_swap. now constructor.
Qed.

Lemma sort_by_perm {A} (before : A -> A -> bool) l :
  Permutation l (sort_by before l).
Proof.
  induction l as [|x l IH]; simpl; [reflexivity|].
  rewrite <- insert_by_perm. now constructor.
Qed.

Section InsertionSort.
Context {A : Type} (before : A -> A -> bool) (R : A -> A -> Prop).
Hypothesis before_true : forall x y, before x y = true -> R x y.
Hypothesis before_false : forall x y, before x y = false -> R y x.

Lemma insert_by_hd x y l :
  R y x -> HdRel R y l -> HdRel R y (insert_by before x l).
Proof.
  intros Hyx Hl. destruct l as [|z l]; simpl; [now constructor|].
  destruct (before x z); constructor; [assumption|].
  now apply HdRel_inv in Hl.
Qed.

Lemma insert_by_sorted x l : Sorted R l -> Sorted R (insert_by before x l).
Proof.
  induction 1 as [|y l Hs IH Hy]; simpl; [repeat constructor|].
  destruct (before x y) eqn:Hxy.
  - constructor; [now constructor|]. constructor. auto.
  - constructor; [assumption|]. apply insert_by_hd; auto.
Qed.

Lemma sort_by_sorted l : Sorted R (sort_by before l).
Proof.
  induction l as [|x l IH]; simpl; [constructor|].
  now apply insert_by_sorted.
Qed.
End InsertionSort.

(** The insertion sort keeps the promise of [sort_values]. *)
Lemma stable_sort_desc_contract : sort_values_contract stable_sort_desc.
Proof.
  intros l. split; [apply sort_by_perm|].
  apply sort_by_sorted; unfold score_ge; intros x y H;
    [assumption|now apply xleb_total].
Qed.


Lemma fold_left_Qmaxb_in l x : In (fold_left Qmaxb l x) (x :: l).
Proof.
  revert x. induction l as [|y l IH]; intros x; simpl; [now left|].
  destruct (IH (Qmaxb x y)) as [H|H]; [|now right; right].
  rewrite <- H. unfold Qmaxb. destruct (Qle_bool x y); auto.
Qed.

(** The maximum of a column is one of its cells. *)
Lemma series_max_in col m : series_max col = Some m -> In (Some m) col.
Proof.
  unfold series_max. intros H.
  destruct (omap id col) as [|x l] eqn:Ho; [discriminate|].
  injection H as <-.
  assert (Hin : In (fold_left Qmaxb l x) (omap id col))
    by (rewrite Ho; apply fold_left_Qmaxb_in).
  apply list_elem_of_In, list_elem_of_omap in Hin as (o & Hin & Ho').
  simpl in Ho'. subst o. now apply list_elem_of_In.
Qed.

Lemma gt0_pos m : gt0 (Some m) = true -> (0 < m)%Q.
Proof.
  simpl. intros H%negb_true_iff. apply Qnot_le_lt. intros L.
  apply Qle_bool_iff in L. congruence.
Qed.

(** The divisors are positive whenever a division is performed. *)
Lemma price_divisor_pos df m : price_divisor df = Some m -> (0 < m)%Q.
Proof.
  unfold price_divisor.
  destruct (gt0 _) eqn:Hg; [|discriminate]. intros E. rewrite E in Hg.
  now apply gt0_pos.
Qed.

Lemma score_divisor_pos avgs m : score_divisor avgs = Some m -> (0 < m)%Q.
Proof.
  unfold score_divisor.
  destruct (gt0 _) eqn:Hg; [|discriminate]. intros E. rewrite E in Hg.
  now apply gt0_pos.
Qed.

Lemma add_scores_rows df r :
  In r (add_scores df) ->
  exists g, In g df
    /\ r = score_row (price_divisor (map coerce_row df))
             (score_divisor (map game_avg_score (map coerce_row df)))
             (series_min (map game_avg_score (map coerce_row df)))
             (coerce_row g).
Proof.
  unfold add_scores. intros H. apply in_map_iff in H as (g' & <- & Hg').
  apply in_map_iff in Hg' as (g & <- & Hg). eauto.
Qed.

Lemma add_scores_games df :
  map rec_game (add_scores df) = map coerce_row df.
Proof.
  unfold add_scores. rewrite map_map. simpl. apply List.map_id.
Qed.

(** C7: the rows of the result are, up to order, the records of the
    input, one row for each record.  If all records have the same price,
    every row gets [normalized_price] 0; if the range of [avg_score] is
    zero, every row gets [normalized_score] 0; and the two divisions are
    only performed with a positive divisor. *)
Theorem C7_normalization_boundaries
    (sort : list recommendation -> list recommendation) (df : frame) :
  sort_values_contract sort ->
  let avgs := map game_avg_score (map coerce_row df) in
  Permutation (map rec_game (analyze_and_recommend sort df))
    (map coerce_row df)
  /\ (forall p : Q,
      (forall g, In g df -> (default 0 (current_price g) == p)%Q) ->
      forall r, In r (analyze_and_recommend sort df) ->
      exists v, normalized_price r = Some v /\ (v == 0)%Q)
  /\ ((forall mx mn, series_max avgs = Some mx -> series_min avgs = Some mn ->
                     (mx - mn == 0)%Q) ->
      forall r, In r (analyze_and_recommend sort df) ->
      normalized_score r = Some 0%Q)
  /\ (forall m, price_divisor (map coerce_row df) = Some m -> (0 < m)%Q)
  /\ (forall m, score_divisor avgs = Some m -> (0 < m)%Q).
Proof.
  intros Hc avgs.
  assert (Hrows : forall r, In r (analyze_and_recommend sort df) ->
                            In r (add_scores df)).
  { intros r. apply Permutation_in. symmetry. apply Hc. }
  split; [|split; [|split; [|split]]].
  - rewrite <- add_scores_games. apply Permutation_map. symmetry. apply Hc.
  - intros p Hp r Hr. apply Hrows, add_scores_rows in Hr as (g & Hg & ->).
    cbn [score_row normalized_price].
    destruct (price_divisor (map coerce_row df)) as [m|] eqn:Hd;
      [|exists 0%Q; split; reflexivity].
    eexists. split; [reflexivity|].
    pose proof (price_divisor_pos _ _ Hd) as Hpos.
    unfold price_divisor in Hd. destruct (gt0 _); [|discriminate].
    apply series_max_in, in_map_iff in Hd as (g' & Hm & Hg').
    apply in_map_iff in Hg' as (g2 & <- & Hg2).
    simpl in Hm. injection Hm as Hm.
    simpl. rewrite (Hp g Hg). rewrite <- Hm in *. rewrite (Hp g2 Hg2) in *.
    field. intros E. rewrite E in Hpos. now apply Qlt_irrefl in Hpos.
  - intros Hz r Hr. apply Hrows, add_scores_rows in Hr as (g & Hg & ->).
    cbn [score_row normalized_score]. fold avgs.
    assert (Hd : score_divisor avgs = None); [|now rewrite Hd].
    unfold score_divisor.
    destruct (series_max avgs) as [mx|]; [|reflexivity].
    destruct (series_min avgs) as [mn|]; [|reflexivity].
    simpl. specialize (Hz mx mn eq_refl eq_refl).
    assert (L : (mx - mn <= 0)%Q) by (rewrite Hz; apply Qle_refl).
    apply Qle_bool_iff in L. now rewrite L.
  - apply price_divisor_pos.
  - apply score_divisor_pos.
Qed.

Lemma C7_normalization_boundaries_witness :
  let df := [mk_game "A" (Some 10%Q) None (Some 80) None None None None None;
             mk_game "B" (Some 10%Q) None (Some 80) (Some 80) None None None None]
  in
  Permutation (map rec_game (analyze_and_recommend stable_sort_desc df))
    (map coerce_row df)
  /\ Forall (fun r => (exists v, normalized_price r = Some v /\ (v == 0)%Q)
                      /\ normalized_score r = Some 0%Q)
       (analyze_and_recommend stable_sort_desc df).
Proof.
  intros df.
  destruct (C7_normalization_boundaries stable_sort_desc df
              stable_sort_desc_contract) as (H0 & H1 & H2 & _).
  split; [exact H0|].
  apply List.Forall_forall. intros r Hr.
  split.
  - apply (H1 10%Q); [|exact Hr].
    intros g [<-|[<-|[]]]; reflexivity.
  - apply H2; [|exact Hr].
    intros mx mn [= <-] [= <-]. reflexivity.
Defined.

(** ** Persistent Record Store *)

Lemma game_exists_in_db_In db t :
  game_exists_in_db db t = true <-> exists g, In g db /\ title g = t.
Proof.
  unfold game_exists_in_db. rewrite existsb_exists.
  split; intros (g & Hg & E); exists g; split; auto;
    now apply String.eqb_eq.
Qed.

Lemma game_exists_in_db_app db1 db2 t :
  game_exists_in_db (db1 ++ db2) t
  = game_exists_in_db db1 t || game_exists_in_db db2 t.
Proof. apply existsb_app. Qed.

(** A record of a title that is not in the table is appended. *)
Lemma insert_or_replace_new db g :
  game_exists_in_db db (title g) = false ->
  insert_or_replace db g = db ++ [db_row g].
Proof.
  unfold insert_or_replace, game_exists_in_db. intros H. f_equal.
  induction db as [|r db IH]; [reflexivity|]. simpl in *.
  apply orb_false_iff in H as [Hr Hdb]. now rewrite Hr, IH.
Qed.

(** Saving touches nothing but the table. *)
Lemma save_game_to_db_frame st g :
  csv (save_game_to_db st g) = csv st
  /\ files (save_game_to_db st g) = files st
  /\ trace (save_game_to_db st g) = trace st
  /\ price_log (save_game_to_db st g) = price_log st
  /\ db_commits (save_game_to_db st g) = db_commits st
  /\ fs_write (save_game_to_db st g) = fs_write st.
Proof.
  unfold save_game_to_db. destruct (insert_succeeds st g); auto 10.
Qed.

(** The table after saving a record of a title that is not in it. *)
Lemma save_game_to_db_new st g :
  game_exists_in_db (db st) (title g) = false ->
  db (save_game_to_db st g)
  = db st ++ map db_row (List.filter (insert_succeeds st) [g]).
Proof.
  intros H. unfold save_game_to_db. simpl.
  destruct (insert_succeeds st g); simpl.
  - now apply insert_or_replace_new.
  - now rewrite app_nil_r.
Qed.

(** Writing a cache file touches nothing but the cache directory. *)
Lemma write_text_frame st file html :
  db (write_text st file html) = db st
  /\ csv (write_text st file html) = csv st
  /\ trace (write_text st file html) = trace st
  /\ price_log (write_text st file html) = price_log st
  /\ db_commits (write_text st file html) = db_commits st
  /\ fs_write (write_text st file html) = fs_write st.
Proof.
  unfold write_text. destruct (fs_write st file html); auto 10.
Qed.

Lemma save_html_to_cache_trace st url html :
  trace (save_html_to_cache st url html) = trace st.
Proof. apply write_text_frame. Qed.

(** ** Steps of the acquisition *)

Section AcquisitionFacts.
Variable http_get : string -> list (string * string) -> option string.
Variable parse_listing : string -> listing_page.
Variable parse_detail : string -> detail_page.
Variable parse_search : string -> search_result.
Variable parse_app : string -> option string.
Variable dateutil_parse : string -> option parsed_date.
Variable now : datetime.
Variable to_csv : frame -> option flat_cache.

Local Abbreviation process_card_ :=
  (process_card http_get parse_detail parse_search parse_app
     dateutil_parse now).
Local Abbreviation crawl_ :=
  (crawl http_get parse_listing parse_detail parse_search parse_app
     dateutil_parse now).
Local Abbreviation get_game_data_ :=
  (get_game_data http_get parse_listing parse_detail parse_search
     parse_app dateutil_parse now to_csv).

Lemma state_extends_refl P st : state_extends P st st.
Proof.
  repeat split; auto. exists []. split; [now rewrite app_nil_r|constructor].
Qed.

Lemma state_extends_trans P st1 st2 st3 :
  state_extends P st1 st2 -> state_extends P st2 st3 ->
  state_extends P st1 st3.
Proof.
  intros (D1 & C1 & (r1 & T1 & F1) & K1 & I1 & W1)
         (D2 & C2 & (r2 & T2 & F2) & K2 & I2 & W2).
  repeat split; [congruence|congruence| |auto|congruence|congruence].
  exists (r1 ++ r2). split; [now rewrite T2, T1, app_assoc|].
  now apply Forall_app.
Qed.

Lemma state_extends_impl (P Q : request -> Prop) st st' :
  (forall r, P r -> Q r) -> state_extends P st st' -> state_extends Q st st'.
Proof.
  intros HPQ (D & C & (r & T & F) & K & I & W). repeat split; auto.
  exists r. split; [assumption|]. eapply Forall_impl; eauto.
Qed.

Lemma log_request_extends (P : request -> Prop) st r :
  P r -> state_extends P st (log_request st r).
Proof.
  intros Hr. repeat split; auto. exists [r]. split; [reflexivity|].
  now repeat constructor.
Qed.

Lemma write_text_extends P st file html :
  state_extends P st (write_text st file html).
Proof.
  unfold write_text.
  destruct (fs_write st file html) as [stored|];
    [|apply state_extends_refl].
  repeat split; auto.
  - exists []. split; [simpl; now rewrite app_nil_r|constructor].
  - intros k Hk. simpl. destruct (decide (file = k)) as [->|Hne].
    + rewrite lookup_insert_eq. eauto.
    + now rewrite lookup_insert_ne.
Qed.

Lemma log_price_extends P st t w : state_extends P st (log_price st t w).
Proof.
  destruct w; [|apply state_extends_refl].
  repeat split; auto.
  exists []. split; [simpl; now rewrite app_nil_r|constructor].
Qed.

Lemma search_steamdb_extends st t :
  state_extends (card_request t)
    st (fst (search_steamdb http_get parse_search st t)).
Proof.
  unfold search_steamdb.
  destruct (truthy_text _) as [html|].
  - destruct (parse_search html) as [|[href|]];
      [| destruct (_ !! 2%nat) |]; apply state_extends_refl.
  - set (r := mk_request _ _ _ _).
    assert (Hr : card_request t r) by (unfold card_request, request_shape; simpl; auto).
    destruct (http_get _ _) as [html|]; simpl.
    + assert (state_extends (card_request t) st
                (save_steamdb_html_to_cache (log_request st r)
                   ("https://steamdb.info/search/?a=app&q=" +:+ t) html)).
      { apply (state_extends_trans _ _ (log_request st r));
          [apply log_request_extends; exact Hr|].
        apply write_text_extends. }
      destruct (parse_search html) as [|[href|]];
        [| destruct (_ !! 2%nat) |]; assumption.
    + now apply log_request_extends.
Qed.

Lemma get_steam_rating_extends st t app_id :
  state_extends (card_request t)
    st (fst (get_steam_rating http_get parse_app st app_id)).
Proof.
  unfold get_steam_rating.
  destruct (truthy_text app_id) as [id|]; [|apply state_extends_refl].
  destruct (truthy_text _) as [html|]; [apply state_extends_refl|].
  set (r := mk_request _ _ _ _).
  assert (Hr : card_request t r) by (unfold card_request, request_shape; simpl; auto).
  destruct (http_get _ _) as [html|]; simpl.
  - apply (state_extends_trans _ _ (log_request st r));
      [apply log_request_extends; exact Hr|].
    apply write_text_extends.
  - now apply log_request_extends.
Qed.

Lemma scrape_details_extends st t price url :
  state_extends (card_request t) st
    (fst (scrape_details http_get parse_detail parse_search parse_app
            dateutil_parse now st t price url))
  /\ (forall g,
        snd (scrape_details http_get parse_detail parse_search parse_app
               dateutil_parse now st t price url) = Some g ->
        title g = t /\ current_price g = Some price
        /\ detail_url g = Some url).
Proof.
  unfold scrape_details.
  set (r := mk_request (DetailGet t) url headers (Some 15%nat)).
  assert (Hr : card_request t r)
    by (unfold card_request, request_shape; simpl; auto).
  assert (H1 : exists st1 html,
             (match truthy_text (get_html_from_cache st url) with
              | Some c => (st, Some c)
              | None =>
                  match http_get url headers with
                  | Some h => (save_html_to_cache (log_request st r)
                                 url h, Some h)
                  | None => (log_request st r, None)
                  end
              end) = (st1, html)
             /\ state_extends (card_request t) st st1).
  { destruct (truthy_text _); [eauto using state_extends_refl|].
    destruct (http_get _ _); do 2 eexists; (split; [reflexivity|]).
    - apply (state_extends_trans _ _ (log_request st r));
        [apply log_request_extends; exact Hr|].
      apply write_text_extends.
    - apply log_request_extends; exact Hr. }
  destruct H1 as (st1 & html & -> & E1).
  destruct html as [html|]; [|split; [exact E1|discriminate]].
  destruct (score_cell _) as [ms|]; [|split; [exact E1|discriminate]].
  destruct (score_cell _) as [os|]; [|split; [exact E1|discriminate]].
  pose proof (search_steamdb_extends st1 t) as E2.
  destruct (search_steamdb _ _ st1 t) as [st2 app_id]. simpl in E2.
  pose proof (state_extends_trans _ _ _ _ E1 E2) as E12.
  destruct app_id as [app_id|]; [|split; [exact E12|discriminate]].
  pose proof (get_steam_rating_extends st2 t app_id) as E3.
  destruct (get_steam_rating _ _ st2 app_id) as [st3 rating]. simpl in E3.
  pose proof (state_extends_trans _ _ _ _ E12 E3) as E123.
  destruct (match truthy_text rating with
            | Some s => option_map Some (python_float s)
            | None => Some None
            end) as [steam|]; [|split; [exact E123|discriminate]].
  destruct (match history_table (parse_detail html) with
            | Some rows =>
                history_statistics now (history_dates dateutil_parse rows)
            | None => Some (mk_stats None None None)
            end) as [stats|]; [|split; [exact E123|discriminate]].
  split; [exact E123|]. simpl. intros g [= <-]. auto.
Qed.

(** *** Detail processing that does not raise *)

Lemma search_steamdb_completes st t :
  (forall html, search_result_parses (parse_search html)) ->
  is_Some (snd (search_steamdb http_get parse_search st t)).
Proof.
  intros Hp.
  assert (Hres : forall st' html,
             is_Some (snd (match parse_search html
                                 return state * option (option string) with
                           | NoResult => (st', Some None)
                           | ResultLink None => (st', None)
                           | ResultLink (Some href) =>
                               match str_split "/" href !! 2%nat with
                               | Some app_id => (st', Some (Some app_id))
                               | None => (st', None)
                               end
                           end))).
  { intros st' html. specialize (Hp html).
    destruct (parse_search html) as [|[href|]]; simpl in *;
      [eauto| |contradiction].
    destruct (str_split "/" href !! 2%nat); simpl; [eauto|].
    now destruct Hp. }
  unfold search_steamdb.
  destruct (truthy_text _) as [html|]; [apply Hres|].
  destruct (http_get _ _) as [html|]; [apply Hres|]. simpl. eauto.
Qed.

Lemma get_steam_rating_parses st app_id :
  (forall html, rating_parses (parse_app html)) ->
  rating_parses (snd (get_steam_rating http_get parse_app st app_id)).
Proof.
  intros Hp. unfold get_steam_rating.
  destruct (truthy_text app_id) as [id|]; [|exact I].
  destruct (truthy_text _) as [html|]; [apply Hp|].
  destruct (http_get _ _) as [html|]; [apply Hp|exact I].
Qed.

Lemma history_statistics_completes dates :
  is_Some (all_naive dates) -> is_Some (history_statistics now dates).
Proof.
  intros [ds Hds]. unfold history_statistics. rewrite Hds.
  destruct dates; eauto.
Qed.

(** In a world whose pages parse, a card whose detail page can be
    fetched gets its record. *)
Lemma scrape_details_completes st t price url :
  pages_parse parse_detail parse_search parse_app dateutil_parse ->
  is_Some (http_get url headers) ->
  is_Some (snd (scrape_details http_get parse_detail parse_search parse_app
                  dateutil_parse now st t price url)).
Proof.
  intros (Hdetail & Hsearch & Hrating) [fetched Hfetched].
  unfold scrape_details. rewrite Hfetched.
  set (r := mk_request (DetailGet t) url headers (Some 15%nat)).
  assert (H1 : exists st1 html,
             (match truthy_text (get_html_from_cache st url) with
              | Some c => (st, Some c)
              | None => (save_html_to_cache (log_request st r) url fetched,
                         Some fetched)
              end) = (st1, Some html)).
  { destruct (truthy_text _); eauto. }
  destruct H1 as (st1 & html & ->).
  destruct (Hdetail html) as (Hm & Ho & Hh).
  destruct Hm as [ms ->]. destruct Ho as [os ->].
  pose proof (search_steamdb_completes st1 t Hsearch) as Hs.
  destruct (search_steamdb _ _ st1 t) as [st2 app_id]. simpl in Hs.
  destruct Hs as [app_id' ->].
  pose proof (get_steam_rating_parses st2 app_id' Hrating) as Hr.
  destruct (get_steam_rating _ _ st2 app_id') as [st3 rating]. simpl in Hr.
  unfold rating_parses in Hr.
  assert (Hsteam : is_Some (match truthy_text rating with
                            | Some s => option_map Some (python_float s)
                            | None => Some None
                            end)).
  { destruct (truthy_text rating) as [s|]; [|eauto].
    destruct Hr as [q ->]. simpl. eauto. }
  destruct Hsteam as [steam ->].
  assert (Hstats : is_Some (match history_table (parse_detail html) with
                            | Some rows =>
                                history_statistics now
                                  (history_dates dateutil_parse rows)
                            | None => Some (mk_stats None None None)
                            end)).
  { destruct (history_table (parse_detail html)) as [rows|] eqn:Hrows;
      [|eauto].
    apply history_statistics_completes. now apply Hh. }
  destruct Hstats as [stats ->]. simpl. eauto.
Qed.
(** *** The scraping loop only adds what is new *)

Lemma insert_succeeds_ext st st' g :
  db_commits st' = db_commits st ->
  insert_succeeds st' g = insert_succeeds st g.
Proof. unfold insert_succeeds. now intros ->. Qed.

Lemma filter_insert_succeeds_ext st st' games :
  db_commits st' = db_commits st ->
  List.filter (insert_succeeds st') games
  = List.filter (insert_succeeds st) games.
Proof.
  intros H. apply List.filter_ext. intros g. now apply insert_succeeds_ext.
Qed.

Lemma scraped_only_new_refl sc : scraped_only_new sc sc.
Proof.
  exists [], []. simpl. rewrite !app_nil_r.
  split; [reflexivity|]. split; [reflexivity|]. split; [reflexivity|].
  split; [reflexivity|]. split; [constructor|].
  split; [intros ? []|]. split; [intros ? ? []|].
  split; [constructor|auto].
Qed.

Lemma title_db_row g : title (db_row g) = title g.
Proof. reflexivity. Qed.

Lemma game_exists_in_db_rows games t :
  game_exists_in_db (map db_row games) t = false ->
  ~ In t (map title games).
Proof.
  intros H Hin. apply in_map_iff in Hin as (g & <- & Hg).
  assert (game_exists_in_db (map db_row games) (title g) = true);
    [|congruence].
  apply game_exists_in_db_In. exists (db_row g).
  split; [now apply in_map|reflexivity].
Qed.

Lemma scraped_only_new_trans sc1 sc2 sc3 :
  scraped_only_new sc1 sc2 -> scraped_only_new sc2 sc3 ->
  scraped_only_new sc1 sc3.
Proof.
  intros (r1 & g1 & T1 & A1 & D1 & C1 & N1 & G1 & R1 & S1 & F1 & I1 & W1)
         (r2 & g2 & T2 & A2 & D2 & C2 & N2 & G2 & R2 & S2 & F2 & I2 & W2).
  rewrite (filter_insert_succeeds_ext _ _ g2 I1) in D2, N2.
  set (stored := insert_succeeds (sc_state sc1)) in *.
  assert (Hold : forall t, game_exists_in_db (db (sc_state sc2)) t = false ->
                   game_exists_in_db (db (sc_state sc1)) t = false
                   /\ ~ In t (map title (List.filter stored g1))).
  { intros t. rewrite D1, game_exists_in_db_app.
    intros [H1 H2]%orb_false_iff.
    split; [assumption|now apply game_exists_in_db_rows]. }
  exists (r1 ++ r2), (g1 ++ g2).
  split; [now rewrite T2, T1, app_assoc|].
  split; [now rewrite A2, A1, app_assoc|].
  split; [now rewrite D2, D1, List.filter_app, map_app, app_assoc|].
  split; [congruence|].
  split.
  { fold stored. rewrite List.filter_app, map_app.
    apply NoDup_app. split; [assumption|].
    split; [|assumption].
    intros t Ht1 Ht2%list_elem_of_In. apply in_map_iff in Ht2 as (g & <- & Hg).
    apply List.filter_In in Hg as [Hg _].
    apply (proj2 (Hold _ (G2 g Hg))). now apply list_elem_of_In. }
  split.
  { intros g [Hg|Hg]%in_app_iff; [auto|]. apply Hold. auto. }
  split.
  { intros r t [Hr|Hr]%in_app_iff Hk; [eauto|]. apply Hold. eauto. }
  split; [now apply Forall_app|].
  split; [auto|]. split; congruence.
Qed.

Lemma card_request_shape t r : card_request t r -> request_shape r.
Proof. now intros [H _]. Qed.

(** What happened to the state alone makes a stretch of the loop in
    which no record was added. *)
Lemma scraped_only_new_state t sc st' n :
  game_exists_in_db (db (sc_state sc)) t = false ->
  state_extends (card_request t) (sc_state sc) st' ->
  scraped_only_new sc (mk_scrape st' (all_games sc) n).
Proof.
  intros Ht (D & C & (reqs & T & F) & K & I & W).
  exists reqs, []. simpl. rewrite !app_nil_r.
  split; [assumption|]. split; [reflexivity|]. split; [assumption|].
  split; [assumption|]. split; [constructor|]. split; [intros ? []|].
  split; [|split; [|auto]].
  - intros r t' Hr Hk. rewrite List.Forall_forall in F.
    destruct (F r Hr) as [_ Hc]. rewrite Hk in Hc. now subst t'.
  - eapply Forall_impl; [exact F|]. apply card_request_shape.
Qed.

(** One card: nothing happens for a title of the table; otherwise at
    most one record, of that title, is added. *)
Lemma process_card_only_new sc c :
  scraped_only_new sc (process_card_ sc c).
Proof.
  unfold process_card.
  destruct (card_title c) as [t|]; [|apply scraped_only_new_refl].
  destruct (game_exists_in_db _ t) eqn:Hex; [apply scraped_only_new_refl|].
  destruct (card_current_price (card_price c)) as [price warning].
  assert (E0 : state_extends (card_request t) (sc_state sc)
                 (log_price (sc_state sc) t warning))
    by apply log_price_extends.
  destruct (truthy_text (card_href c)) as [href|];
    [|now apply (scraped_only_new_state t)].
  destruct (scrape_details_extends (log_price (sc_state sc) t warning) t
              price ("https://www.dekudeals.com" +:+ href)) as [E1 Hg].
  destruct (scrape_details _ _ _ _ _ _ _ _ _ _) as [st1 [game|]];
    simpl in E1, Hg;
    pose proof (state_extends_trans _ _ _ _ E0 E1) as E;
    [|now apply (scraped_only_new_state t)].
  destruct (Hg game eq_refl) as (Ht & _).
  destruct E as (D & C & (reqs & T & F) & K & I & W).
  destruct (save_game_to_db_frame st1 game)
    as (Sc & Sf & St & _ & Si & Sw).
  exists reqs, [game]. cbn [sc_state all_games].
  rewrite save_game_to_db_new by (rewrite D, Ht; exact Hex).
  rewrite (filter_insert_succeeds_ext _ _ [game] I), D, Sc, Sf, St, Si, Sw.
  split; [assumption|]. split; [reflexivity|]. split; [reflexivity|].
  split; [assumption|].
  split.
  { simpl. destruct (insert_succeeds _ game); simpl;
      [apply NoDup_singleton|constructor]. }
  split; [intros g [<-|[]]; now rewrite Ht|].
  split; [|split; [|auto]].
  - intros r t' Hr Hk. rewrite List.Forall_forall in F.
    destruct (F r Hr) as [_ Hc]. rewrite Hk in Hc. now subst t'.
  - eapply Forall_impl; [exact F|]. apply card_request_shape.
Qed.

Lemma fold_process_card_only_new cards sc :
  scraped_only_new sc (fold_left process_card_ cards sc).
Proof.
  revert sc. induction cards as [|c cards IH]; intros sc; simpl.
  - apply scraped_only_new_refl.
  - eapply scraped_only_new_trans; [apply process_card_only_new|apply IH].
Qed.

Lemma listing_fetch_only_new sc r st' :
  request_shape r -> (forall t, req_kind r <> DetailGet t) ->
  state_extends (fun r' => r' = r) (sc_state sc) st' ->
  scraped_only_new sc
    (mk_scrape st' (all_games sc) (games_processed_count sc)).
Proof.
  intros Hs Hk (D & C & (reqs & T & F) & K & I & W).
  exists reqs, []. simpl. rewrite !app_nil_r.
  split; [assumption|]. split; [reflexivity|]. split; [assumption|].
  split; [assumption|]. split; [constructor|]. split; [intros ? []|].
  split; [|split; [|auto]].
  - intros r' t Hr E. rewrite List.Forall_forall in F.
    rewrite (F r' Hr) in E. now apply Hk in E.
  - eapply Forall_impl; [exact F|]. now intros ? ->.
Qed.

(** The state once a listing page was fetched. *)
Lemma listing_fetched_only_new sc page url html :
  scraped_only_new sc
    (mk_scrape
       (save_html_to_cache
          (log_request (sc_state sc)
             (mk_request (ListingGet page) url headers (Some 15%nat)))
          url html)
       (all_games sc) (games_processed_count sc)).
Proof.
  set (r := mk_request (ListingGet page) url headers (Some 15%nat)).
  apply (listing_fetch_only_new sc r);
    [unfold request_shape; simpl; auto|discriminate|].
  eapply state_extends_trans;
    [now apply log_request_extends|apply write_text_extends].
Qed.

(** The whole loop, whenever it is left. *)
Lemma crawl_only_new fuel base_url page sc sc' :
  crawl_ fuel base_url page sc = Some sc' -> scraped_only_new sc sc'.
Proof.
  revert page sc. induction fuel as [|fuel IH]; intros page sc;
    [discriminate|].
  cbn [crawl].
  set (url := if (1 <? page)%nat then _ else _).
  set (r := mk_request (ListingGet page) url headers (Some 15%nat)).
  assert (Hr : request_shape r) by (unfold request_shape; simpl; auto).
  assert (Hk : forall t, req_kind r <> DetailGet t) by discriminate.
  assert (E0 : state_extends (fun r' => r' = r) (sc_state sc)
                 (log_request (sc_state sc) r))
    by now apply log_request_extends.
  destruct (http_get url headers) as [html|].
  - pose proof (listing_fetched_only_new sc page url html) as E1.
    fold r in E1.
    destruct (game_cards (parse_listing html)) as [|c cards] eqn:Hcards.
    + now intros [= <-].
    + pose proof (fold_process_card_only_new (c :: cards)
                    (mk_scrape (save_html_to_cache
                                  (log_request (sc_state sc) r) url html)
                       (all_games sc) (games_processed_count sc))) as E2.
      pose proof (scraped_only_new_trans _ _ _ E1 E2) as E12.
      destruct (next_page_link _).
      * intros H%IH. eapply scraped_only_new_trans; eauto.
      * now intros [= <-].
  - intros [= <-]. now apply (listing_fetch_only_new sc r).
Qed.

(** The loop starts with the GET of its first listing page. *)
Lemma crawl_first_request fuel base_url page sc sc' :
  crawl_ fuel base_url page sc = Some sc' ->
  exists rest,
    trace (sc_state sc')
    = trace (sc_state sc)
      ++ mk_request (ListingGet page) (page_url base_url page) headers
           (Some 15%nat) :: rest.
Proof.
  destruct fuel as [|fuel]; [discriminate|]. cbn [crawl].
  fold (page_url base_url page).
  set (r := mk_request _ _ _ _).
  destruct (http_get _ headers) as [html|];
    [|intros [= <-]; exists []; reflexivity].
  set (sc1 := mk_scrape _ _ _).
  assert (T1 : trace (sc_state sc1) = trace (sc_state sc) ++ [r]).
  { unfold sc1, save_html_to_cache, write_text. simpl.
    now destruct (fs_write _ _ _). }
  destruct (game_cards (parse_listing html)) as [|c cards];
    [intros [= <-]; exists []; exact T1|].
  assert (Hfold : forall l, exists r2,
             trace (sc_state (fold_left process_card_ l sc1))
             = trace (sc_state sc) ++ r :: r2).
  { intros l. destruct (fold_process_card_only_new l sc1)
      as (r2 & _ & T2 & _).
    exists r2. rewrite T2, T1. now rewrite <- app_assoc. }
  destruct (next_page_link _).
  - intros (r3 & _ & T3 & _)%crawl_only_new.
    destruct (Hfold (c :: cards)) as [r2 T2].
    exists (r2 ++ r3). rewrite T3. simpl in T2 |- *. rewrite T2.
    now rewrite <- app_assoc.
  - intros [= <-]. exact (Hfold (c :: cards)).
Qed.

(** The loop is left at the latest on a page that ends the listing. *)
Lemma crawl_terminates k : forall fuel base_url page sc,
  (k < fuel)%nat ->
  last_page http_get parse_listing base_url (page + k) = true ->
  is_Some (crawl_ fuel base_url page sc).
Proof.
  induction k as [|k IH]; intros [|fuel] base_url page sc Hk Hlast;
    try lia; cbn [crawl]; fold (page_url base_url page);
    unfold last_page in Hlast.
  - rewrite Nat.add_0_r in Hlast.
    destruct (http_get _ headers) as [html|]; [|eauto].
    destruct (game_cards (parse_listing html)); [eauto|].
    apply negb_true_iff in Hlast. rewrite Hlast. eauto.
  - destruct (http_get (page_url base_url page) headers) as [html|];
      [|eauto].
    destruct (game_cards (parse_listing html)); [eauto|].
    destruct (next_page_link _); [|eauto].
    apply IH; [lia|]. unfold last_page.
    now replace (S page + k)%nat with (page + S k)%nat by lia.
Qed.

(** *** Every card the loop meets is accounted for *)

Lemma has_title_app_l t games more :
  has_title t games -> has_title t (games ++ more).
Proof. intros (g & Hg & Ht). exists g. split; [apply in_app_iff|]; auto. Qed.

(** Records stay in the result. *)
Lemma only_new_has_title sc sc' t :
  scraped_only_new sc sc' ->
  has_title t (all_games sc) -> has_title t (all_games sc').
Proof.
  intros (rq & games & _ & A & _). rewrite A. apply has_title_app_l.
Qed.

(** A title the table holds was there before or belongs to a record of
    the result. *)
Lemma only_new_known sc sc' t :
  scraped_only_new sc sc' ->
  game_exists_in_db (db (sc_state sc')) t = true ->
  has_title t (all_games sc')
  \/ game_exists_in_db (db (sc_state sc)) t = true.
Proof.
  intros (rq & games & _ & A & D & _). rewrite D, game_exists_in_db_app.
  intros [H|H]%orb_true_iff; [now right|]. left.
  apply game_exists_in_db_In in H as (row & Hrow & Ht).
  apply in_map_iff in Hrow as (g & <- & Hg).
  apply List.filter_In in Hg as [Hg _].
  exists g. rewrite A. split; [apply in_app_iff; now right|exact Ht].
Qed.

Section Coverage.
Hypothesis world_parses :
  pages_parse parse_detail parse_search parse_app dateutil_parse.

Lemma process_card_covers sc c t :
  card_of_title http_get t c ->
  has_title t (all_games (process_card_ sc c))
  \/ game_exists_in_db (db (sc_state sc)) t = true.
Proof.
  intros (Ht & href & Hhref & Hfetch). unfold process_card.
  rewrite Ht, Hhref.
  destruct (game_exists_in_db _ t) eqn:Hex; [now right|]. left.
  destruct (card_current_price (card_price c)) as [price warning].
  pose proof (scrape_details_completes (log_price (sc_state sc) t warning)
                t price _ world_parses Hfetch) as [g Hg].
  destruct (scrape_details_extends (log_price (sc_state sc) t warning) t
              price ("https://www.dekudeals.com" +:+ href)) as [_ Hgt].
  destruct (scrape_details _ _ _ _ _ _ _ _ _ _) as [st1 game].
  simpl in Hg, Hgt. subst game. destruct (Hgt g eq_refl) as [Htitle _].
  exists g. cbn [all_games]. split; [apply in_app_iff; right; now left|].
  exact Htitle.
Qed.

Lemma fold_process_card_covers c t cards : forall sc,
  In c cards -> card_of_title http_get t c ->
  has_title t (all_games (fold_left process_card_ cards sc))
  \/ game_exists_in_db (db (sc_state sc)) t = true.
Proof.
  induction cards as [|c' cards IH]; intros sc Hin Hc; [destruct Hin|].
  simpl. destruct Hin as [->|Hin].
  - destruct (process_card_covers sc c t Hc) as [H|H]; [left|now right].
    eapply only_new_has_title; [apply fold_process_card_only_new|exact H].
  - destruct (IH (process_card_ sc c') Hin Hc) as [H|H]; [now left|].
    destruct (only_new_known _ _ _ (process_card_only_new sc c') H)
      as [H'|H']; [left|now right].
    eapply only_new_has_title; [apply fold_process_card_only_new|exact H'].
Qed.

(** A card of a page the loop reaches has its record in the result,
    unless the table held its title when the loop started. *)
Lemma crawl_covers fuel base_url : forall page sc sc',
  crawl_ fuel base_url page sc = Some sc' ->
  forall j html c t,
    (page <= j)%nat ->
    (forall i, (page <= i < j)%nat ->
               last_page http_get parse_listing base_url i = false) ->
    http_get (page_url base_url j) headers = Some html ->
    In c (game_cards (parse_listing html)) ->
    card_of_title http_get t c ->
    has_title t (all_games sc')
    \/ game_exists_in_db (db (sc_state sc)) t = true.
Proof.
  induction fuel as [|fuel IH]; intros page sc sc'; [discriminate|].
  cbn [crawl]. fold (page_url base_url page).
  intros Hcrawl j html c t Hj Hbefore Hget Hin Hc.
  set (r := mk_request (ListingGet page) (page_url base_url page) headers
              (Some 15%nat)) in *.
  destruct (Nat.eq_dec j page) as [->|Hne].
  - rewrite Hget in Hcrawl.
    pose proof (listing_fetched_only_new sc page (page_url base_url page)
                  html) as E1. fold r in E1.
    set (sc1 := mk_scrape _ _ _) in *.
    destruct (game_cards (parse_listing html)) as [|c0 cards] eqn:Hcards;
      [destruct Hin|].
    assert (Hfold : has_title t
                      (all_games (fold_left process_card_ (c0 :: cards) sc1))
                    \/ game_exists_in_db (db (sc_state sc)) t = true).
    { destruct (fold_process_card_covers c t (c0 :: cards) sc1 Hin Hc)
        as [H|H]; [now left|].
      destruct (only_new_known _ _ _ E1 H) as [H'|H']; [left|now right].
      eapply only_new_has_title;
        [apply fold_process_card_only_new|exact H']. }
    destruct (next_page_link _).
    + destruct Hfold as [H|H]; [left|now right].
      eapply only_new_has_title; [eapply crawl_only_new; eauto|exact H].
    + injection Hcrawl as <-. exact Hfold.
  - assert (Hlast : last_page http_get parse_listing base_url page = false)
      by (apply Hbefore; lia).
    unfold last_page in Hlast.
    destruct (http_get (page_url base_url page) headers) as [html0|];
      [|discriminate].
    pose proof (listing_fetched_only_new sc page (page_url base_url page)
                  html0) as E1. fold r in E1.
    set (sc1 := mk_scrape _ _ _) in *.
    destruct (game_cards (parse_listing html0)) as [|c0 cards] eqn:Hcards;
      [discriminate|].
    apply negb_false_iff in Hlast. rewrite Hlast in Hcrawl.
    pose proof (fold_process_card_only_new (c0 :: cards) sc1) as E2.
    pose proof (scraped_only_new_trans _ _ _ E1 E2) as E12.
    destruct (IH _ _ _ Hcrawl j html c t) as [H|H]; auto;
      [lia|intros i Hi; apply Hbefore; lia|].
    destruct (only_new_known _ _ _ E12 H) as [H'|H']; [left|now right].
    eapply only_new_has_title; [eapply crawl_only_new; eauto|exact H'].
Qed.
End Coverage.

Lemma ensure_types_priced rows :
  Forall (fun g => is_Some (current_price g)) rows ->
  ensure_types rows = rows.
Proof.
  induction 1 as [|g rows [p Hp] _ IH]; [reflexivity|].
  simpl. rewrite IH. f_equal. destruct g; simpl in *. now subst.
Qed.

Lemma usable_snapshot_load c :
  load_csv_cache c
  = match usable_snapshot c with
    | [] => None
    | rows => Some (ensure_types rows)
    end.
Proof. destruct c as [| |[|] [|g rows]]; reflexivity. Qed.


(** C5: a title that is in the table when the loop runs.  A card of that
    title leaves the whole state of the loop as it is; and whenever the
    loop is left, no GET of a detail page for that title was issued, the
    rows the table held are still its first rows and no added row has
    that title (the added rows are those of the new records whose
    [INSERT] succeeded), and no record of that title was appended to the
    result. *)
Theorem C5_stored_titles_skipped
    (fuel : nat) (base_url : string) (page : nat) (sc : scrape) (t : string) :
  game_exists_in_db (db (sc_state sc)) t = true ->
  (forall c, card_title c = Some t -> process_card_ sc c = sc)
  /\ (forall sc', crawl_ fuel base_url page sc = Some sc' ->
      exists new_requests new_games,
        trace (sc_state sc') = trace (sc_state sc) ++ new_requests
        /\ (forall r, In r new_requests -> req_kind r <> DetailGet t)
        /\ db (sc_state sc')
           = db (sc_state sc)
             ++ map db_row
                  (List.filter (insert_succeeds (sc_state sc)) new_games)
        /\ all_games sc' = all_games sc ++ new_games
        /\ (forall g, In g new_games -> title g <> t)).
Proof.
  intros Hex. split.
  - intros c Hc. unfold process_card. now rewrite Hc, Hex.
  - intros sc' (rq & games & T & A & D & _ & _ & G & R & _)%crawl_only_new.
    exists rq, games. repeat split; auto.
    + intros r Hr Hk. specialize (R r t Hr Hk). congruence.
    + intros g Hg Ht. specialize (G g Hg). congruence.
Qed.
End AcquisitionFacts.
(** ** The sample world *)

Lemma sample_pages_parse :
  pages_parse sample_parse_detail sample_parse_search sample_parse_app
    sample_dateutil_parse.
Proof.
  split; [|split]; intros html.
  - split; [eexists; reflexivity|]. split; [eexists; reflexivity|].
    intros rows [= <-]. eexists. vm_compute. reflexivity.
  - simpl. eexists. vm_compute. reflexivity.
  - unfold rating_parses. simpl. eexists. vm_compute. reflexivity.
Qed.

Lemma sample_last_page_1 :
  last_page sample_http_get sample_parse_listing sample_base_url 1 = false.
Proof. vm_compute. reflexivity. Qed.



Lemma C5_stored_titles_skipped_witness :
  let sc := mk_scrape state_with_A [] 0 in
  sample_process_card sc (mk_card (Some "A") (Some "5") (Some "/items/a"))%string
  = sc
  /\ forall sc', sample_crawl 2 sample_base_url 1 sc = Some sc' ->
     exists new_requests new_games,
       trace (sc_state sc') = trace (sc_state sc) ++ new_requests
       /\ (forall r, In r new_requests -> req_kind r <> DetailGet "A")
       /\ db (sc_state sc')
          = db (sc_state sc)
            ++ map db_row
                 (List.filter (insert_succeeds (sc_state sc)) new_games)
       /\ all_games sc' = all_games sc ++ new_games
       /\ (forall g, In g new_games -> title g <> "A"%string).
Proof.
  intros sc.
  destruct (C5_stored_titles_skipped sample_http_get sample_parse_listing
              sample_parse_detail sample_parse_search sample_parse_app
              sample_dateutil_parse sample_now 2 sample_base_url 1 sc "A")
    as [H1 H2]; [reflexivity|].
  split; [apply H1; reflexivity|exact H2].
Defined.

(** C8 fails on the code: in the sample world the acquisition from the
    empty state issues the external-rating search and the external-rating
    detail GET without any header, while the browser headers are three. *)
Lemma C8_rating_requests_without_headers :
  exists df st',
    sample_get_game_data 2 sample_base_url false empty_state = Some (df, st')
    /\ In (mk_request (SearchGet "A") "https://steamdb.info/search/?a=app&q=A"
             [] None) (trace st')
    /\ In (mk_request (AppGet "504230") "https://steamdb.info/app/504230/"
             [] None) (trace st')
    /\ length headers = 3%nat.
Proof.
  destruct (sample_get_game_data 2 sample_base_url false empty_state)
    as [[df st']|] eqn:E; [|vm_compute in E; discriminate E].
  exists df, st'. split; [reflexivity|].
  assert (Ht : trace st' = trace (snd (default ([], empty_state)
                 (sample_get_game_data 2 sample_base_url false empty_state))))
    by now rewrite E.
  rewrite Ht. vm_compute. intuition.
Qed.

(* ===================================================================== *)
(** * Part III: further properties of the code *)
(* ===================================================================== *)

(** ** Persistent Record Store: insert-or-replace *)

Lemma insert_or_replace_filter db g :
  List.filter (fun r => negb (String.eqb (title r) (title g)))
    (insert_or_replace db g)
  = List.filter (fun r => negb (String.eqb (title r) (title g))) db.
Proof.
  unfold insert_or_replace. rewrite List.filter_app. simpl.
  rewrite String.eqb_refl. simpl. rewrite app_nil_r.
  induction db as [|r db IH]; [reflexivity|]. simpl.
  destruct (negb _) eqn:E; simpl; [rewrite E|]; now rewrite IH.
Qed.

Lemma insert_or_replace_exists db g t :
  game_exists_in_db (insert_or_replace db g) t
  = String.eqb (title g) t || game_exists_in_db db t.
Proof.
  unfold insert_or_replace. rewrite game_exists_in_db_app.
  replace (game_exists_in_db [db_row g] t) with (String.eqb (title g) t)
    by (unfold game_exists_in_db; simpl; now rewrite orb_false_r).
  assert (H : game_exists_in_db
                (List.filter
                   (fun r => negb (String.eqb (title r) (title g))) db) t
              = negb (String.eqb (title g) t) && game_exists_in_db db t).
  { unfold game_exists_in_db.
    induction db as [|r db IH]; [now rewrite andb_false_r|]. simpl.
    destruct (String.eqb_spec (title r) (title g)) as [E|E]; simpl.
    - rewrite IH, E. destruct (String.eqb (title g) t); reflexivity.
    - rewrite IH.
      destruct (String.eqb_spec (title g) t) as [E2|N]; simpl; [|reflexivity].
      destruct (String.eqb_spec (title r) t); [congruence|].
      reflexivity. }
  rewrite H.
  destruct (String.eqb (title g) t), (game_exists_in_db db t); reflexivity.
Qed.

(** X1: after [save_game_to_db] the title of the record is found in the
    table if the [INSERT] succeeded or the title was found before; any
    other title is found exactly if it was found before. *)
Theorem save_then_exists (st : state) (g : game) (t : string) :
  game_exists_in_db (db (save_game_to_db st g)) t
  = (insert_succeeds st g && String.eqb (title g) t)
    || game_exists_in_db (db st) t.
Proof.
  unfold save_game_to_db. destruct (insert_succeeds st g); simpl.
  - apply insert_or_replace_exists.
  - reflexivity.
Qed.

Lemma filter_titles_NoDup (p : game -> bool) db :
  NoDup (map title db) -> NoDup (map title (List.filter p db)).
Proof.
  induction db as [|r db IH]; simpl; [auto|].
  intros [Hr Hdb]%NoDup_cons. destruct (p r); simpl; [|auto].
  apply NoDup_cons. split; [|auto].
  intros Hin. apply Hr. apply list_elem_of_In in Hin.
  apply list_elem_of_In. apply in_map_iff in Hin as (x & <- & Hx).
  apply in_map. now apply List.filter_In in Hx as [Hx _].
Qed.

(** X2: the upsert keeps the key unique.  In a table with one row per
    title, saving a record leaves one row per title.  If the [INSERT]
    succeeds, the row of the saved title is the new one and comes last and
    the rows of the other titles stay in their order; if it raises, which
    it does for a score of 2^63 or more, the state is left as it was.
    Saving the same record again changes nothing. *)
Theorem save_game_to_db_upsert (st : state) (g : game) :
  NoDup (map title (db st)) ->
  NoDup (map title (db (save_game_to_db st g)))
  /\ (insert_succeeds st g = true ->
      db (save_game_to_db st g)
      = List.filter (fun r => negb (String.eqb (title r) (title g))) (db st)
        ++ [db_row g]
      /\ forall r, In r (db (save_game_to_db st g)) -> title r = title g ->
                   r = db_row g)
  /\ (insert_succeeds st g = false -> save_game_to_db st g = st)
  /\ (forall z, metascore g = Some z \/ openscore g = Some z ->
                2 ^ 63 <= z -> insert_succeeds st g = false)
  /\ save_game_to_db (save_game_to_db st g) g = save_game_to_db st g.
Proof.
  intros Hnd.
  assert (Hnew : NoDup (map title (insert_or_replace (db st) g))).
  { unfold insert_or_replace. rewrite map_app. apply NoDup_app.
    split; [now apply filter_titles_NoDup|]. split; [|apply NoDup_singleton].
    intros t Ht Ht'. apply list_elem_of_In in Ht, Ht'.
    destruct Ht' as [<-|[]]. apply in_map_iff in Ht as (r & E & Hr).
    apply List.filter_In in Hr as [_ Hr]. simpl in E.
    apply negb_true_iff in Hr.
    destruct (String.eqb_spec (title r) (title g)); congruence. }
  split; [|split; [|split; [|split]]].
  - unfold save_game_to_db. now destruct (insert_succeeds st g).
  - intros Hok. unfold save_game_to_db. rewrite Hok. simpl.
    split; [reflexivity|]. unfold insert_or_replace.
    intros r [Hr|[<-|[]]]%in_app_iff E; [|reflexivity].
    apply List.filter_In in Hr as [_ Hr]. apply negb_true_iff in Hr.
    destruct (String.eqb_spec (title r) (title g)); congruence.
  - intros Hno. unfold save_game_to_db. now rewrite Hno.
  - intros z Hz Hbig. unfold insert_succeeds, sqlite_accepts.
    assert (Hfit : fits_int64 (Some z) = false).
    { simpl. apply andb_false_iff. right. apply Z.ltb_ge. exact Hbig. }
    destruct Hz as [-> | ->]; rewrite Hfit; simpl;
      [reflexivity|]. now rewrite andb_false_r.
  - unfold save_game_to_db.
    destruct (insert_succeeds st g) eqn:Hok; [|now rewrite Hok].
    replace (insert_succeeds (set_db st (insert_or_replace (db st) g)) g)
      with true by (symmetry; exact Hok).
    unfold set_db. simpl. f_equal.
    unfold insert_or_replace at 1. now rewrite insert_or_replace_filter.
Qed.

Lemma save_game_to_db_upsert_witness :
  let cheaper :=
    mk_game "A" (Some 9.99%Q) None (Some 85) None None None None None in
  let oversized :=
    mk_game "A" (Some 9.99%Q) None (Some (2 ^ 63)) None None None None None in
  db (save_game_to_db state_with_A cheaper) = [db_row cheaper]
  /\ NoDup (map title (db (save_game_to_db state_with_A cheaper)))
  /\ save_game_to_db state_with_A oversized = state_with_A.
Proof.
  intros cheaper oversized.
  assert (Hnd : NoDup (map title (db state_with_A)))
    by apply NoDup_singleton.
  destruct (save_game_to_db_upsert state_with_A cheaper Hnd)
    as (H1 & H2 & _).
  destruct (save_game_to_db_upsert state_with_A oversized Hnd)
    as (_ & _ & H3 & H4 & _).
  split; [|split; [exact H1|]].
  - destruct H2 as [H2 _]; [reflexivity|]. rewrite H2. reflexivity.
  - apply H3. apply (H4 (2 ^ 63)); [left; reflexivity|lia].
Defined.

(** ** HTML Cache Store: reads after writes *)

Lemma universal_newlines_plain s :
  str_contains "013" s = false -> universal_newlines s = s.
Proof.
  induction s as [|c s IH]; [reflexivity|]. simpl.
  intros [Hc Hs]%orb_false_iff. rewrite Ascii.eqb_sym in Hc.
  rewrite Hc. now rewrite IH.
Qed.

Lemma cache_filename_eq_iff u v :
  get_html_cache_filename u = get_html_cache_filename v
  <-> sanitize u = sanitize v.
Proof.
  rewrite !get_html_cache_filename_eq. split; [|now intros ->].
  intros E. apply (str_app_inv_head "html_cache/") in E.
  now apply (str_app_inv_tail _ _ ".html") in E.
Qed.

(** X3: a page saved for a URL.  If the file system stores a text, a
    later read returns that text with every line ending turned into a line
    feed, for that URL and for every URL that differs from it only by an
    exchange among "/", ":" and "_"; a text without carriage return is
    read as it is.  If the file cannot be opened the state is left as it
    was.  The entries of all other URLs are left as they were in either
    case. *)
Theorem html_cache_read_after_write (st : state) (u v html : string) :
  (forall stored,
      fs_write st (get_html_cache_filename u) html = Some stored ->
      same_modulo_separators u v ->
      get_html_from_cache (save_html_to_cache st u html) v
      = Some (universal_newlines stored)
      /\ (str_contains "013" stored = false ->
          get_html_from_cache (save_html_to_cache st u html) v = Some stored))
  /\ (fs_write st (get_html_cache_filename u) html = None ->
      save_html_to_cache st u html = st)
  /\ (~ same_modulo_separators u v ->
      get_html_from_cache (save_html_to_cache st u html) v
      = get_html_from_cache st v).
Proof.
  assert (Hsame : same_modulo_separators u v
                  <-> get_html_cache_filename u = get_html_cache_filename v)
    by (rewrite cache_filename_eq_iff; symmetry; apply sanitize_eq_iff).
  unfold get_html_from_cache, save_html_to_cache, read_text, write_text.
  split; [|split].
  - intros stored -> E%Hsame. rewrite <- E. simpl.
    rewrite lookup_insert_eq. simpl.
    split; [reflexivity|]. intros H. now rewrite universal_newlines_plain.
  - now intros ->.
  - intros H. destruct (fs_write st _ html); [|reflexivity]. simpl.
    rewrite lookup_insert_ne; [reflexivity|]. intros E. now apply H, Hsame.
Qed.

Lemma html_cache_read_after_write_witness :
  let crlf := String "a" (String "013" (String "010" "b")) in
  get_html_from_cache
    (save_html_to_cache empty_state "https://www.dekudeals.com/items/a_b"
       crlf)
    "https://www.dekudeals.com/items/a/b"
  = Some (String "a" (String "010" "b"))
  /\ get_html_from_cache
       (save_html_to_cache empty_state "https://www.dekudeals.com/items/a_b"
          crlf)
       "https://www.dekudeals.com/items/abc"
     = get_html_from_cache empty_state "https://www.dekudeals.com/items/abc".
Proof.
  intros crlf.
  destruct (html_cache_read_after_write empty_state
              "https://www.dekudeals.com/items/a_b"
              "https://www.dekudeals.com/items/a/b" crlf) as (H1 & _ & _).
  destruct (html_cache_read_after_write empty_state
              "https://www.dekudeals.com/items/a_b"
              "https://www.dekudeals.com/items/abc" crlf) as (_ & _ & H2).
  split.
  - apply (H1 crlf); [reflexivity|].
    apply sanitize_eq_iff. vm_compute. reflexivity.
  - apply H2.
    intros H. apply sanitize_eq_iff, String.eqb_eq in H.
    vm_compute in H. discriminate H.
Defined.

Lemma namespaces_differ u :
  get_html_cache_filename u <> get_steamdb_cache_filename u.
Proof.
  rewrite get_html_cache_filename_eq, get_steamdb_cache_filename_eq.
  intros E. apply (f_equal String.length) in E.
  rewrite !str_length_app in E. simpl in E. lia.
Qed.

(** X4: for one and the same URL the two namespaces never share a file:
    the two file names differ, and a page saved under a URL in one
    namespace does not change what the other namespace holds for that
    URL. *)
Theorem cache_namespaces_independent (st : state) (u html : string) :
  get_html_cache_filename u <> get_steamdb_cache_filename u
  /\ get_steamdb_html_from_cache (save_html_to_cache st u html) u
     = get_steamdb_html_from_cache st u
  /\ get_html_from_cache (save_steamdb_html_to_cache st u html) u
     = get_html_from_cache st u.
Proof.
  pose proof (namespaces_differ u) as H.
  split; [exact H|]. split.
  - unfold get_steamdb_html_from_cache, save_html_to_cache, read_text,
      write_text.
    destruct (fs_write st _ html); [|reflexivity]. simpl.
    now rewrite lookup_insert_ne.
  - unfold get_html_from_cache, save_steamdb_html_to_cache, read_text,
      write_text.
    destruct (fs_write st _ html); [|reflexivity]. simpl.
    rewrite lookup_insert_ne; [reflexivity|congruence].
Qed.

Lemma sanitize_no_colon u : str_contains ":" (sanitize u) = false.
Proof.
  induction u as [|c u IH]; [reflexivity|].
  rewrite sanitize_cons. simpl. rewrite IH, orb_false_r.
  destruct (Ascii.eqb_spec c "/") as [->|H1]; [reflexivity|].
  destruct (Ascii.eqb_spec c ":") as [->|H2]; [reflexivity|].
  simpl. destruct (Ascii.eqb_spec ":" c); congruence.
Qed.

Lemma sanitize_length u : String.length (sanitize u) = String.length u.
Proof.
  induction u as [|c u IH]; [reflexivity|].
  rewrite sanitize_cons. simpl. now rewrite IH.
Qed.

(** X5: every cache file lies directly in the cache directory: its name is
    "html_cache/" (plus "steamdb_" in the external-rating namespace), a
    text as long as the URL without any "/" or ":", and ".html". *)
Theorem cache_files_in_cache_dir (url : string) :
  exists name,
    get_html_cache_filename url = "html_cache/" +:+ name +:+ ".html"
    /\ get_steamdb_cache_filename url
       = "html_cache/steamdb_" +:+ name +:+ ".html"
    /\ str_contains "/" name = false /\ str_contains ":" name = false
    /\ String.length name = String.length url.
Proof.
  exists (sanitize url).
  split; [apply get_html_cache_filename_eq|].
  split; [apply get_steamdb_cache_filename_eq|].
  auto using sanitize_no_slash, sanitize_no_colon, sanitize_length.
Qed.

(** ** Price Parser: sign and noise *)

Lemma digit_value_nonneg c : re_digit c = true -> 0 <= digit_value c.
Proof.
  unfold re_digit, digit_value. intros [H _]%andb_true_iff.
  apply N.leb_le in H. lia.
Qed.

Lemma digits_to_Z_acc_nonneg s acc :
  str_forallb re_digit s = true -> 0 <= acc -> 0 <= digits_to_Z_acc acc s.
Proof.
  revert acc. induction s as [|c s IH]; simpl; intros acc; [auto|].
  intros [Hc Hs]%andb_true_iff Hacc. apply IH; [assumption|].
  pose proof (digit_value_nonneg c Hc). lia.
Qed.

Lemma digits_to_Z_nonneg s :
  str_forallb re_digit s = true -> 0 <= digits_to_Z s.
Proof. intros H. now apply digits_to_Z_acc_nonneg. Qed.

(** [float] of an unsigned literal is not negative. *)
Lemma python_float_nonneg s v : python_float s = Some v -> (0 <= v)%Q.
Proof.
  unfold python_float. destruct (partition_dot s) as [ip [fp|]].
  - destruct (str_forallb re_digit ip) eqn:Hi; [|discriminate].
    destruct (str_forallb re_digit fp) eqn:Hf; [|discriminate].
    destruct (_ || _); [|discriminate]. simpl. intros [= <-].
    assert (0 <= digits_to_Z (ip +:+ fp))
      by (apply digits_to_Z_nonneg; now rewrite str_forallb_app, Hi, Hf).
    unfold Qle. simpl. lia.
  - destruct (str_truthy ip); [|discriminate]. simpl.
    destruct (str_forallb re_digit ip) eqn:Hi; [|discriminate].
    intros [= <-]. pose proof (digits_to_Z_nonneg ip Hi).
    unfold Qle. simpl. lia.
Qed.

Lemma parse_price_try_result s v w :
  parse_price_try s = Some (v, w) ->
  (0 <= v)%Q /\ (w <> None -> v = 0%Q).
Proof.
  unfold parse_price_try.
  repeat match goal with
         | |- context [if ?b then _ else _] => destruct b
         | |- context [python_float ?x] =>
             let E := fresh "E" in
             destruct (python_float x) eqn:E; simpl
         end;
    intros [= <- <-]; try discriminate;
    (split; [eauto using python_float_nonneg, Qle_refl|congruence]).
Qed.

(** X6: the price of a card is never negative, and it is 0 whenever a
    warning is logged (no price element, unexpected shape, or a text
    [float] rejects). *)
Theorem price_never_negative (price_elem : option string) :
  (0 <= fst (card_current_price price_elem))%Q
  /\ (snd (card_current_price price_elem) <> None ->
      fst (card_current_price price_elem) = 0%Q).
Proof.
  destruct price_elem as [price_text|]; simpl;
    [|split; [apply Qle_refl|reflexivity]].
  unfold parse_price.
  destruct (parse_price_try _) as [[v w]|] eqn:E; simpl;
    [|split; [apply Qle_refl|reflexivity]].
  now apply parse_price_try_result in E.
Qed.

Lemma price_never_negative_witness :
  fst (card_current_price (Some "1.2.3"%string)) = 0%Q.
Proof.
  apply (price_never_negative (Some "1.2.3"%string)). discriminate.
Defined.

Lemma re_sub_non_price_app s t :
  re_sub_non_price (s +:+ t) = re_sub_non_price s +:+ re_sub_non_price t.
Proof.
  induction s as [|c s IH]; [reflexivity|]. rewrite str_app_cons. simpl.
  destruct (price_char c); [rewrite str_app_cons|]; now rewrite IH.
Qed.

Lemma re_sub_non_price_noise s :
  str_forallb (fun c => negb (price_char c)) s = true ->
  re_sub_non_price s = EmptyString.
Proof.
  induction s as [|c s IH]; simpl; [reflexivity|].
  intros [Hc Hs]%andb_true_iff. apply negb_true_iff in Hc.
  now rewrite Hc, IH.
Qed.

Lemma digits_are_price_chars s :
  str_forallb re_digit s = true -> str_forallb price_char s = true.
Proof.
  apply str_forallb_impl. unfold price_char. now intros c ->.
Qed.

Lemma str_app_assoc (s t u : string) : s +:+ (t +:+ u) = (s +:+ t) +:+ u.
Proof.
  induction s as [|c s IH]; [reflexivity|]. now rewrite !str_app_cons, IH.
Qed.

Lemma str_replace_app old new s t :
  str_replace old new (s +:+ t)
  = str_replace old new s +:+ str_replace old new t.
Proof.
  induction s as [|c s IH]; [reflexivity|]. rewrite str_app_cons. simpl.
  destruct (Ascii.eqb c old); rewrite IH.
  - apply str_app_assoc.
  - now rewrite str_app_cons.
Qed.

Lemma str_app_nil_r s : s +:+ EmptyString = s.
Proof. induction s as [|c s IH]; [reflexivity|]. now rewrite str_app_cons, IH. Qed.

(** The cleaned form of a number wrapped in currency text. *)
Lemma re_sub_non_price_wrapped noise1 noise2 a sep b :
  str_forallb (fun c => negb (price_char c)) noise1 = true ->
  str_forallb (fun c => negb (price_char c)) noise2 = true ->
  str_forallb re_digit a = true -> str_forallb re_digit b = true ->
  price_char sep = true ->
  re_sub_non_price (noise1 +:+ a +:+ String sep b +:+ noise2)
  = a +:+ String sep b.
Proof.
  intros H1 H2 Ha Hb Hsep.
  change (a +:+ String sep b +:+ noise2)
    with (a +:+ String sep (b +:+ noise2)).
  rewrite !re_sub_non_price_app. simpl. rewrite Hsep.
  rewrite re_sub_non_price_app.
  rewrite (re_sub_non_price_noise _ H1), (re_sub_non_price_noise _ H2).
  rewrite !re_sub_non_price_id by now apply digits_are_price_chars.
  now rewrite str_app_nil_r.
Qed.

(** X7: a number written with one decimal separator and no thousands
    separator parses to the same value whether the separator is a dot or a
    comma, whatever currency text surrounds it: the digits before and
    after the separator, read as one integer, over the power of ten of the
    number of decimals; no warning is logged. *)
Theorem decimal_conventions_agree (noise1 noise2 a b : string) :
  str_forallb (fun c => negb (price_char c)) noise1 = true ->
  str_forallb (fun c => negb (price_char c)) noise2 = true ->
  str_forallb re_digit a = true -> str_forallb re_digit b = true ->
  str_truthy a || str_truthy b = true ->
  let value := digits_to_Z (a +:+ b)
               # Z.to_pos (10 ^ Z.of_nat (String.length b)) in
  parse_price (noise1 +:+ a +:+ String "." b +:+ noise2) = (value, None)
  /\ parse_price (noise1 +:+ a +:+ String "," b +:+ noise2) = (value, None).
Proof.
  intros H1 H2 Ha Hb Hne value.
  assert (Hca : forall c, re_digit c = false -> str_contains c a = false)
    by (intros; now apply no_sep_of_digits).
  assert (Hcb : forall c, re_digit c = false -> str_contains c b = false)
    by (intros; now apply no_sep_of_digits).
  assert (Ht : str_truthy (a +:+ String "." b) = true)
    by (destruct a; reflexivity).
  unfold parse_price. split.
  - rewrite re_sub_non_price_wrapped by auto.
    unfold parse_price_try.
    rewrite !str_contains_app. simpl.
    rewrite !Hca, !Hcb by reflexivity. simpl.
    rewrite str_replace_absent
      by (rewrite str_contains_app; simpl; rewrite Hca, Hcb; reflexivity).
    rewrite Ht, python_float_point by assumption. reflexivity.
  - rewrite re_sub_non_price_wrapped by auto.
    unfold parse_price_try.
    rewrite !str_contains_app. simpl. rewrite orb_true_r.
    rewrite (str_replace_absent "." "")
      by (rewrite str_contains_app; simpl; rewrite Hca, Hcb; reflexivity).
    rewrite str_replace_app. simpl.
    rewrite !str_replace_absent by (now apply no_sep_of_digits).
    change ("." +:+ b) with (String "." b).
    rewrite Ht, python_float_point by assumption. reflexivity.
Qed.

Lemma decimal_conventions_agree_witness :
  parse_price "ARS$ 1234.56 " = (1234.56%Q, None)
  /\ parse_price "ARS$ 1234,56 " = (1234.56%Q, None).
Proof.
  apply (decimal_conventions_agree "ARS$ " " " "1234" "56"); reflexivity.
Defined.

(** ** Recommendation Engine: ranges of the derived columns *)

Lemma fold_left_Qmaxb_ge l x y :
  In y (x :: l) -> (y <= fold_left Qmaxb l x)%Q.
Proof.
  revert x y. induction l as [|z l IH]; intros x y.
  - intros [<-|[]]. apply Qle_refl.
  - simpl. intros H.
    assert (Hx : (x <= Qmaxb x z)%Q /\ (z <= Qmaxb x z)%Q).
    { unfold Qmaxb. destruct (Qle_bool x z) eqn:E.
      - split; [now apply Qle_bool_iff|apply Qle_refl].
      - split; [apply Qle_refl|]. destruct (Qlt_le_dec x z) as [L|L]; [|exact L].
        apply Qlt_le_weak, Qle_bool_iff in L. congruence. }
    destruct H as [<-|[<-|H]].
    + eapply Qle_trans; [apply Hx|]. apply IH. now left.
    + eapply Qle_trans; [apply Hx|]. apply IH. now left.
    + apply IH. now right.
Qed.

Lemma fold_left_Qminb_le l x y :
  In y (x :: l) -> (fold_left Qminb l x <= y)%Q.
Proof.
  revert x y. induction l as [|z l IH]; intros x y.
  - intros [<-|[]]. apply Qle_refl.
  - simpl. intros H.
    assert (Hx : (Qminb x z <= x)%Q /\ (Qminb x z <= z)%Q).
    { unfold Qminb. destruct (Qle_bool x z) eqn:E.
      - split; [apply Qle_refl|now apply Qle_bool_iff].
      - split; [|apply Qle_refl]. destruct (Qlt_le_dec x z) as [L|L]; [|exact L].
        apply Qlt_le_weak, Qle_bool_iff in L. congruence. }
    destruct H as [<-|[<-|H]].
    + eapply Qle_trans; [|apply Hx]. apply IH. now left.
    + eapply Qle_trans; [|apply Hx]. apply IH. now left.
    + apply IH. now right.
Qed.

Lemma omap_id_In {A} (col : list (option A)) v :
  In (Some v) col <-> In v (omap id col).
Proof.
  rewrite <- !list_elem_of_In, list_elem_of_omap. split.
  - intros H. exists (Some v). auto.
  - intros (o & Ho & E). simpl in E. now subst o.
Qed.

(** No cell of a column exceeds its maximum or is below its minimum. *)
Lemma series_max_ge col m v :
  series_max col = Some m -> In (Some v) col -> (v <= m)%Q.
Proof.
  unfold series_max. intros H Hv%omap_id_In.
  destruct (omap id col) as [|x l]; [discriminate|]. injection H as <-.
  now apply fold_left_Qmaxb_ge.
Qed.

Lemma series_min_le col m v :
  series_min col = Some m -> In (Some v) col -> (m <= v)%Q.
Proof.
  unfold series_min. intros H Hv%omap_id_In.
  destruct (omap id col) as [|x l]; [discriminate|]. injection H as <-.
  now apply fold_left_Qminb_le.
Qed.

Lemma unit_fraction (a b : Q) :
  (0 <= a)%Q -> (a <= b)%Q -> (0 < b)%Q -> (0 <= a / b <= 1)%Q.
Proof.
  intros Ha Hab Hb. split.
  - apply Qle_shift_div_l; [exact Hb|]. now rewrite Qmult_0_l.
  - apply Qle_shift_div_r; [exact Hb|]. now rewrite Qmult_1_l.
Qed.

Lemma coerce_row_price g :
  current_price (coerce_row g) = Some (default 0%Q (current_price g)).
Proof. reflexivity. Qed.

(** X8: the normalised columns stay in the unit interval.  For every row
    of the result, [normalized_score], when it is a number, lies in
    [0, 1]; [normalized_price] is a number that is at least 0, and at most
    1 if the price of the row is not negative. *)
Theorem normalized_columns_in_unit_interval
    (sort : list recommendation -> list recommendation) (df : frame) :
  sort_values_contract sort ->
  forall r, In r (analyze_and_recommend sort df) ->
  exists g,
    In g df /\ rec_game r = coerce_row g
    /\ (forall v, normalized_score r = Some v -> (0 <= v <= 1)%Q)
    /\ (exists v, normalized_price r = Some v /\ (0 <= v)%Q
                  /\ ((0 <= default 0 (current_price g))%Q -> (v <= 1)%Q)).
Proof.
  intros Hc r Hr.
  apply (Permutation_in _ (Permutation_sym (proj1 (Hc _)))) in Hr.
  apply add_scores_rows in Hr as (g & Hg & ->). exists g.
  split; [exact Hg|]. split; [reflexivity|].
  set (df' := map coerce_row df). set (avgs := map game_avg_score df').
  assert (Hg' : In (coerce_row g) df') by now apply in_map.
  split.
  - cbn [score_row normalized_score]. intros v.
    destruct (score_divisor avgs) as [range|] eqn:Hd;
      [|intros [= <-]; split; [apply Qle_refl|discriminate]].
    pose proof (score_divisor_pos _ _ Hd) as Hpos.
    unfold score_divisor in Hd.
    destruct (series_max avgs) as [mx|] eqn:Hmx; [|discriminate].
    destruct (series_min avgs) as [mn|] eqn:Hmn; [|discriminate].
    simpl in Hd. destruct (negb _); [|discriminate]. injection Hd as <-.
    destruct (game_avg_score (coerce_row g)) as [a|] eqn:Ha; [|discriminate].
    simpl. intros [= <-].
    assert (Hin : In (Some a) avgs).
    { rewrite <- Ha. unfold avgs. now apply in_map. }
    pose proof (series_max_ge _ _ _ Hmx Hin).
    pose proof (series_min_le _ _ _ Hmn Hin).
    apply unit_fraction; [| |exact Hpos].
    + now apply (Qplus_le_r _ _ mn); ring_simplify.
    + now apply (Qplus_le_r _ _ mn); ring_simplify.
  - cbn [score_row normalized_price]. rewrite coerce_row_price. simpl.
    destruct (price_divisor df') as [m|] eqn:Hd.
    + pose proof (price_divisor_pos _ _ Hd) as Hpos.
      unfold price_divisor in Hd. destruct (gt0 _); [|discriminate].
      assert (Hle : (default 0 (current_price g) <= m)%Q).
      { apply (series_max_ge _ _ _ Hd). apply in_map_iff.
        exists (coerce_row g). split; [reflexivity|exact Hg']. }
      eexists. split; [reflexivity|]. split.
      * apply (Qplus_le_r _ _ (default 0 (current_price g) / m)%Q).
        ring_simplify. apply Qle_shift_div_r; [exact Hpos|].
        now rewrite Qmult_1_l.
      * intros Hp. apply (Qplus_le_r _ _ (default 0 (current_price g) / m)%Q).
        ring_simplify. apply (Qplus_le_r _ _ (-(1))%Q). ring_simplify.
        apply Qle_shift_div_l; [exact Hpos|]. now rewrite Qmult_0_l.
    + exists 0%Q. repeat split; try discriminate; apply Qle_refl.
Qed.

Lemma normalized_columns_in_unit_interval_witness :
  let df := [mk_game "A" (Some 20%Q) None (Some 70) None None None None (Some 3);
             mk_game "B" (Some 10%Q) None (Some 90) None None None None None]
  in
  Forall (fun r => exists g,
            In g df /\ rec_game r = coerce_row g
            /\ (forall v, normalized_score r = Some v -> (0 <= v <= 1)%Q)
            /\ (exists v, normalized_price r = Some v /\ (0 <= v)%Q
                  /\ ((0 <= default 0 (current_price g))%Q -> (v <= 1)%Q)))
    (analyze_and_recommend stable_sort_desc df).
Proof.
  intros df. apply List.Forall_forall.
  exact (normalized_columns_in_unit_interval stable_sort_desc df
           stable_sort_desc_contract).
Defined.

(** ** Recommendation Engine: the discount term and the rows *)

(** X9: the division by [days_since_last_discount + 1] is not guarded.  A
    row whose day count is -1 gets an infinite discount probability and an
    infinite recommendation score, and no other row does; a row without a
    day count is treated as 365 days and gets the probability 1/366. *)
Theorem discount_probability_edge_cases (df : frame) (r : recommendation) :
  In r (add_scores df) ->
  exists g,
    In g df /\ rec_game r = coerce_row g
    /\ (recommendation_score r = PosInf
        <-> days_since_last_discount g = Some (-1))
    /\ (discount_probability r = PosInf
        <-> days_since_last_discount g = Some (-1))
    /\ (days_since_last_discount g = None ->
        discount_probability r = Finite (1 / 366)%Q).
Proof.
  intros (g & Hg & ->)%add_scores_rows. exists g.
  split; [exact Hg|]. split; [reflexivity|].
  cbn [score_row recommendation_score discount_probability].
  unfold recommendation_score_of, discount_probability_of.
  destruct (days_since_last_discount g) as [d|] eqn:Hd; simpl;
    rewrite ?Hd; simpl.
  - destruct (Z.eqb_spec (d + 1) 0) as [E|E].
    + repeat split; auto; try discriminate; intros _; f_equal; lia.
    + repeat split; try discriminate; intros [= ?]; lia.
  - repeat split; try discriminate.
Qed.

Lemma discount_probability_edge_cases_witness :
  let tomorrow :=
    mk_game "A" (Some 10%Q) None None None None
      (Some "2024-04-02"%string) None (Some (-1)) in
  exists r, In r (add_scores [tomorrow])
            /\ recommendation_score r = PosInf.
Proof.
  intros tomorrow. eexists. split; [left; reflexivity|].
  destruct (discount_probability_edge_cases [tomorrow] _
              (or_introl eq_refl)) as (g & [<-|[]] & _ & H & _).
  apply H. reflexivity.
Defined.

Lemma coerce_row_idem g : coerce_row (coerce_row g) = coerce_row g.
Proof. reflexivity. Qed.

(** X10: the engine keeps the rows.  Its result has one row per input row;
    the input columns of the result are, up to order, the input rows with
    a missing price filled with 0 and a missing day count with 365; and
    scoring the rows of a scored frame again gives the same scored
    frame. *)
Theorem engine_keeps_rows
    (sort : list recommendation -> list recommendation) (df : frame) :
  sort_values_contract sort ->
  length (analyze_and_recommend sort df) = length df
  /\ Permutation (map rec_game (analyze_and_recommend sort df))
       (map coerce_row df)
  /\ add_scores (map rec_game (add_scores df)) = add_scores df.
Proof.
  intros Hc. destruct (Hc (add_scores df)) as [Hp _].
  unfold analyze_and_recommend. split; [|split].
  - rewrite <- (Permutation_length Hp). unfold add_scores.
    now rewrite !length_map.
  - rewrite <- add_scores_games. apply Permutation_map. now symmetry.
  - rewrite add_scores_games.
    assert (E : map coerce_row (map coerce_row df) = map coerce_row df)
      by (rewrite map_map; apply map_ext; intros; apply coerce_row_idem).
    unfold add_scores. cbv zeta. now rewrite !E.
Qed.

Lemma engine_keeps_rows_witness :
  let df := [mk_game "A" None None (Some 70) None None None None (Some 3);
             mk_game "B" (Some 10%Q) None (Some 90) None None None None None]
  in
  length (analyze_and_recommend stable_sort_desc df) = 2%nat
  /\ Permutation (map rec_game (analyze_and_recommend stable_sort_desc df))
       (map coerce_row df).
Proof.
  intros df.
  destruct (engine_keeps_rows stable_sort_desc df stable_sort_desc_contract)
    as (H1 & H2 & _).
  split; [exact H1|exact H2].
Defined.

(** ** Acquisition: what a run may do *)

Section AcquisitionRuns.
Variable http_get : string -> list (string * string) -> option string.
Variable parse_listing : string -> listing_page.
Variable parse_detail : string -> detail_page.
Variable parse_search : string -> search_result.
Variable parse_app : string -> option string.
Variable dateutil_parse : string -> option parsed_date.
Variable now : datetime.
Variable to_csv : frame -> option flat_cache.

Local Abbreviation crawl_ :=
  (crawl http_get parse_listing parse_detail parse_search parse_app
     dateutil_parse now).
Local Abbreviation get_game_data_ :=
  (get_game_data http_get parse_listing parse_detail parse_search
     parse_app dateutil_parse now to_csv).
Local Abbreviation post_scraping_ := (post_scraping to_csv).

(** A run either loads (and changes nothing) or scrapes. *)
Lemma get_game_data_cases fuel base_url force_refresh st df st' :
  get_game_data_ fuel base_url force_refresh st = Some (df, st') ->
  (force_refresh = false /\ st' = st
   /\ (db st <> [] \/ usable_snapshot (csv st) <> []))
  \/ ((force_refresh = true
       \/ (db st = [] /\ usable_snapshot (csv st) = []))
      /\ exists sc,
           crawl_ fuel base_url 1 (mk_scrape st [] 0) = Some sc
           /\ post_scraping_ sc = (df, st')).
Proof.
  unfold get_game_data.
  assert (Hscrape :
            (sc ← crawl_ fuel base_url 1 (mk_scrape st [] 0);
             Some (post_scraping_ sc)) = Some (df, st') ->
            exists sc, crawl_ fuel base_url 1 (mk_scrape st [] 0) = Some sc
                       /\ post_scraping_ sc = (df, st')).
  { destruct (crawl_ _ _ _ _) as [sc|]; [|discriminate].
    simpl. intros [= E]. eauto. }
  destruct force_refresh; [right; split; auto|].
  destruct (db st) as [|g rows] eqn:Hdb; simpl.
  - rewrite usable_snapshot_load.
    destruct (usable_snapshot (csv st)) as [|g rows] eqn:Hcsv.
    + right. split; auto.
    + intros [= <- <-]. left. repeat split. right. discriminate.
  - intros [= <- <-]. left. repeat split. left. discriminate.
Qed.

Lemma post_scraping_state sc df st' :
  post_scraping_ sc = (df, st') ->
  db st' = db (sc_state sc) /\ trace st' = trace (sc_state sc)
  /\ files st' = files (sc_state sc)
  /\ csv st' = match all_games sc with
               | [] => csv (sc_state sc)
               | games => default (csv (sc_state sc)) (to_csv games)
               end
  /\ (all_games sc <> [] -> df = ensure_types (all_games sc)).
Proof.
  unfold post_scraping. destruct (all_games sc) as [|g games].
  - destruct (_ =? _)%nat; [destruct (db (sc_state sc)) eqn:E|];
      intros [= <- <-]; repeat split; auto; congruence.
  - destruct (to_csv (g :: games)); intros [= <- <-]; repeat split; auto.
Qed.

(** X11: the GETs of a run.  Whatever a run of [get_game_data] adds to the
    trace has the shape of its call site: listing and detail GETs carry
    the browser headers and a timeout of 15 seconds, external-rating GETs
    carry no header and no timeout and go to the search or the app URL of
    their argument.  A run that loads from the table or from the snapshot
    issues no GET at all. *)
Theorem requests_of_a_run
    (fuel : nat) (base_url : string) (force_refresh : bool)
    (st st' : state) (df : frame) :
  get_game_data_ fuel base_url force_refresh st = Some (df, st') ->
  exists new_requests,
    trace st' = trace st ++ new_requests
    /\ Forall request_shape new_requests
    /\ (force_refresh = false ->
        db st <> [] \/ usable_snapshot (csv st) <> [] ->
        new_requests = []).
Proof.
  intros [(Hf & -> & Hload)|(Hwhy & sc & Hsc & Hpost)]%get_game_data_cases.
  - exists []. rewrite app_nil_r. repeat split; auto.
  - apply crawl_only_new in Hsc as (rq & _ & T & _ & _ & _ & _ & _ & _ & S & _).
    apply post_scraping_state in Hpost as (_ & Ht & _).
    exists rq. split; [now rewrite Ht|]. split; [exact S|].
    intros Hf Hload. destruct Hwhy as [->|[Hdb Hcsv]]; [discriminate|].
    destruct Hload; congruence.
Qed.

(** X12: the table and the snapshot after a run.  The rows a run adds to
    the table are those of the records the scrape collected whose [INSERT]
    succeeded, in the same order, each under a title the table did not
    hold and no two under the same title; nothing the table held is
    removed or replaced, and a table with one row per title keeps one row
    per title.  If the scrape collected records they are what the run
    returns, and the snapshot is what [to_csv] writes for them, or the old
    one if [to_csv] raises; otherwise the snapshot is left as it was. *)
Theorem table_after_a_run
    (fuel : nat) (base_url : string) (force_refresh : bool)
    (st st' : state) (df : frame) :
  get_game_data_ fuel base_url force_refresh st = Some (df, st') ->
  exists games,
    db st' = db st ++ map db_row (List.filter (insert_succeeds st) games)
    /\ (forall g, In g games -> game_exists_in_db (db st) (title g) = false)
    /\ NoDup (map title (List.filter (insert_succeeds st) games))
    /\ (games <> [] -> df = ensure_types games)
    /\ csv st' = match games with
                 | [] => csv st
                 | _ => default (csv st) (to_csv games)
                 end
    /\ (NoDup (map title (db st)) -> NoDup (map title (db st'))).
Proof.
  intros [(Hf & -> & Hload)|(Hwhy & sc & Hsc & Hpost)]%get_game_data_cases.
  - exists []. simpl. rewrite app_nil_r.
    repeat split; auto; try (intros ? []); try constructor. congruence.
  - apply crawl_only_new in Hsc
      as (rq & games & _ & A & D & C & N & G & _).
    apply post_scraping_state in Hpost as (Hd & _ & _ & Hcsv & Hdf).
    simpl in A, D, C, N, G. rewrite A in Hcsv, Hdf. rewrite C in Hcsv.
    exists games. rewrite Hd, D.
    split; [reflexivity|]. split; [exact G|]. split; [exact N|].
    split; [exact Hdf|]. split; [rewrite Hcsv; now destruct games|].
    intros Hnd. rewrite map_app. apply NoDup_app.
    split; [exact Hnd|]. split.
    + intros t Ht Ht'. apply list_elem_of_In in Ht, Ht'.
      rewrite map_map in Ht'. apply in_map_iff in Ht' as (g & <- & Hg).
      apply List.filter_In in Hg as [Hg _].
      apply in_map_iff in Ht as (r & E & Hr).
      assert (game_exists_in_db (db st) (title g) = true); [|
        rewrite (G g Hg) in *; discriminate].
      apply game_exists_in_db_In. eauto.
    + rewrite map_map. exact N.
Qed.
End AcquisitionRuns.

Section AcquisitionEdges.
Variable http_get : string -> list (string * string) -> option string.
Variable parse_listing : string -> listing_page.
Variable parse_detail : string -> detail_page.
Variable parse_search : string -> search_result.
Variable parse_app : string -> option string.
Variable dateutil_parse : string -> option parsed_date.
Variable now : datetime.
Variable to_csv : frame -> option flat_cache.

Local Abbreviation process_card_ :=
  (process_card http_get parse_detail parse_search parse_app
     dateutil_parse now).
Local Abbreviation crawl_ :=
  (crawl http_get parse_listing parse_detail parse_search parse_app
     dateutil_parse now).
Local Abbreviation get_game_data_ :=
  (get_game_data http_get parse_listing parse_detail parse_search
     parse_app dateutil_parse now to_csv).

Lemma fold_process_card_known cards sc :
  (forall c t, In c cards -> card_title c = Some t ->
               game_exists_in_db (db (sc_state sc)) t = true) ->
  fold_left process_card_ cards sc = sc.
Proof.
  induction cards as [|c cards IH]; intros H; [reflexivity|]. simpl.
  assert (E : process_card_ sc c = sc).
  { unfold process_card. destruct (card_title c) as [t|] eqn:Ht; [|reflexivity].
    now rewrite (H c t (or_introl eq_refl) Ht). }
  rewrite E. apply IH. intros c' t Hc'. apply H. now right.
Qed.

(** A crawl over a listing that shows stored titles only. *)
Lemma crawl_nothing_new (known : list game) base_url fuel :
  (forall page html c t,
      http_get (page_url base_url page) headers = Some html ->
      In c (game_cards (parse_listing html)) -> card_title c = Some t ->
      game_exists_in_db known t = true) ->
  forall page sc sc',
    db (sc_state sc) = known ->
    crawl_ fuel base_url page sc = Some sc' ->
    db (sc_state sc') = known /\ csv (sc_state sc') = csv (sc_state sc)
    /\ all_games sc' = all_games sc
    /\ games_processed_count sc' = games_processed_count sc
    /\ exists new_requests,
         trace (sc_state sc') = trace (sc_state sc) ++ new_requests
         /\ Forall (fun r => exists p, req_kind r = ListingGet p)
              new_requests.
Proof.
  intros Hknown. induction fuel as [|fuel IH]; intros page sc sc' Hdb;
    [discriminate|].
  cbn [crawl]. fold (page_url base_url page).
  set (r := mk_request (ListingGet page) _ _ _).
  assert (Hr : Forall (fun r => exists p, req_kind r = ListingGet p) [r])
    by (repeat constructor; now exists page).
  destruct (http_get (page_url base_url page) headers) as [html|] eqn:Hget;
    [|intros [= <-]; simpl; eauto 10].
  set (st1 := save_html_to_cache (log_request (sc_state sc) r)
                (page_url base_url page) html).
  assert (H1 : db st1 = known /\ csv st1 = csv (sc_state sc)
               /\ trace st1 = trace (sc_state sc) ++ [r]).
  { unfold st1, save_html_to_cache, write_text.
    destruct (fs_write _ _ _); simpl; auto. }
  destruct H1 as (Hdb1 & Hcsv1 & Htrace1).
  destruct (game_cards (parse_listing html)) as [|c cards] eqn:Hcards;
    [intros [= <-]; simpl; eauto 10|].
  rewrite fold_process_card_known.
  - destruct (next_page_link _); [|intros [= <-]; simpl; eauto 10].
    intros H. apply IH in H; [|exact Hdb1].
    destruct H as (H1 & H2 & H3 & H4 & rq & T & F). simpl in *.
    split; [exact H1|]. split; [congruence|]. split; [exact H3|].
    split; [exact H4|]. exists (r :: rq).
    split; [now rewrite T, Htrace1, <- app_assoc|].
    constructor; [now exists page|exact F].
  - simpl. rewrite Hdb1. intros c' t Hc'. apply (Hknown page html).
    + exact Hget.
    + now rewrite Hcards.
Qed.

(** X14: a refresh that meets stored titles only.  If every titled card
    of every listing page that can be fetched is in the table, and the
    listing ends on some page within the fuel, a forced refresh completes;
    it issues listing GETs only and scrapes nothing; it returns the rows
    of the table, not an empty frame, and leaves the table and the
    snapshot as they were. *)
Theorem refresh_with_nothing_new
    (fuel n : nat) (base_url : string) (st : state) :
  (forall page html c t,
      http_get (page_url base_url page) headers = Some html ->
      In c (game_cards (parse_listing html)) -> card_title c = Some t ->
      game_exists_in_db (db st) t = true) ->
  (1 <= n <= fuel)%nat ->
  last_page http_get parse_listing base_url n = true ->
  exists st' new_requests,
    get_game_data_ fuel base_url true st = Some (ensure_types (db st), st')
    /\ db st' = db st /\ csv st' = csv st
    /\ trace st' = trace st ++ new_requests
    /\ new_requests <> []
    /\ Forall (fun r => exists p, req_kind r = ListingGet p) new_requests.
Proof.
  intros Hknown Hn Hlast. unfold get_game_data. simpl.
  destruct (crawl_terminates http_get parse_listing parse_detail parse_search
              parse_app dateutil_parse now (n - 1) fuel base_url 1
              (mk_scrape st [] 0%nat))
    as [sc Hsc]; [lia|now replace (1 + (n - 1))%nat with n by lia|].
  rewrite Hsc. simpl.
  destruct (crawl_nothing_new (db st) base_url fuel Hknown 1%nat
              (mk_scrape st [] 0%nat) sc eq_refl Hsc)
    as (Hdb & Hcsv & Hgames & Hcount & rq & T & F).
  destruct (crawl_first_request _ _ _ _ _ _ _ _ _ _ _ _ Hsc) as [rest Hrest].
  simpl in Hcsv, Hgames, Hcount, T, Hrest.
  unfold post_scraping. rewrite Hgames, Hcount. simpl.
  rewrite Hdb.
  exists (sc_state sc), rq.
  split; [now destruct (db st)|].
  split; [exact Hdb|]. split; [exact Hcsv|]. split; [exact T|].
  split; [|exact F].
  intros ->. rewrite app_nil_r in T. rewrite T in Hrest.
  apply (f_equal (@length request)) in Hrest.
  rewrite length_app in Hrest. simpl in Hrest. lia.
Qed.

(** ** External Rating Resolver: caching and the identifier *)

Lemma truthy_text_Some o s : truthy_text o = Some s -> o = Some s /\ s <> EmptyString.
Proof.
  destruct o as [x|]; [|discriminate]. simpl.
  destruct x; [discriminate|]. intros [= <-]. split; [reflexivity|discriminate].
Qed.

Lemma truthy_text_nonempty s : s <> EmptyString -> truthy_text (Some s) = Some s.
Proof. destruct s; [congruence|reflexivity]. Qed.

(** The state after a search that does not find its page in the cache. *)
Lemma search_steamdb_miss st game_title :
  truthy_text
    (get_steamdb_html_from_cache st
       ("https://steamdb.info/search/?a=app&q=" +:+ game_title)) = None ->
  fst (search_steamdb http_get parse_search st game_title)
  = match http_get ("https://steamdb.info/search/?a=app&q=" +:+ game_title)
            [] with
    | Some html =>
        save_steamdb_html_to_cache
          (log_request st
             (mk_request (SearchGet game_title)
                ("https://steamdb.info/search/?a=app&q=" +:+ game_title)
                [] None))
          ("https://steamdb.info/search/?a=app&q=" +:+ game_title) html
    | None =>
        log_request st
          (mk_request (SearchGet game_title)
             ("https://steamdb.info/search/?a=app&q=" +:+ game_title)
             [] None)
    end.
Proof.
  intros Hc. unfold search_steamdb. rewrite Hc.
  destruct (http_get _ []) as [html|]; [|reflexivity].
  destruct (parse_search html) as [|[href|]];
    [|destruct (_ !! 2%nat)|]; reflexivity.
Qed.

(** A search that finds its page in the cache leaves the state alone. *)
Lemma search_steamdb_hit st game_title cached :
  truthy_text
    (get_steamdb_html_from_cache st
       ("https://steamdb.info/search/?a=app&q=" +:+ game_title))
  = Some cached ->
  fst (search_steamdb http_get parse_search st game_title) = st.
Proof.
  intros Hc. unfold search_steamdb. rewrite Hc.
  destruct (parse_search cached) as [|[href|]];
    [|destruct (_ !! 2%nat)|]; reflexivity.
Qed.

(** A search that finds in the cache the page the search before it
    fetched gives the same result. *)
Lemma search_steamdb_again st game_title html :
  let search_url := "https://steamdb.info/search/?a=app&q=" +:+ game_title in
  let st1 :=
    save_steamdb_html_to_cache
      (log_request st (mk_request (SearchGet game_title) search_url [] None))
      search_url html in
  truthy_text (get_steamdb_html_from_cache st search_url) = None ->
  http_get search_url [] = Some html ->
  truthy_text (get_steamdb_html_from_cache st1 search_url) = Some html ->
  search_steamdb http_get parse_search st1 game_title
  = search_steamdb http_get parse_search st game_title.
Proof.
  intros search_url st1 Hc Hget Hhit. unfold search_steamdb.
  fold search_url. rewrite Hhit, Hc, Hget. fold st1.
  destruct (parse_search html) as [|[href|]];
    [|destruct (_ !! 2%nat)|]; reflexivity.
Qed.

(** X15: the search step is cached by URL.  A search that finds its page
    in the cache issues no GET and changes nothing, so a further search
    is the same.  After a search that fetched a non-empty page which the
    file system stored as it is and which holds no carriage return, a
    further search issues no GET, changes nothing and gives the same
    answer.  A failed GET is not remembered, nor is a page that could not
    be written: the next search issues the same GET again. *)
Theorem search_steamdb_cached (st : state) (game_title : string) :
  let search_url := "https://steamdb.info/search/?a=app&q=" +:+ game_title in
  let get := mk_request (SearchGet game_title) search_url [] None in
  let first := search_steamdb http_get parse_search st game_title in
  let second := search_steamdb http_get parse_search (fst first) game_title in
  (truthy_text (get_steamdb_html_from_cache st search_url) <> None ->
   fst first = st /\ second = first)
  /\ (truthy_text (get_steamdb_html_from_cache st search_url) = None ->
      (forall html,
          http_get search_url [] = Some html -> html <> EmptyString ->
          fs_write st (get_steamdb_cache_filename search_url) html
          = Some html ->
          str_contains "013" html = false ->
          trace (fst first) = trace st ++ [get] /\ second = first)
      /\ (http_get search_url [] = None
          \/ (exists html,
                http_get search_url [] = Some html
                /\ fs_write st (get_steamdb_cache_filename search_url) html
                   = None) ->
          trace (fst second) = trace st ++ [get; get])).
Proof.
  intros search_url get first second. subst first second.
  split.
  - intros Hne.
    destruct (truthy_text (get_steamdb_html_from_cache st search_url))
      as [cached|] eqn:Hc; [|congruence].
    rewrite (search_steamdb_hit st game_title cached Hc). auto.
  - intros Hc.
    pose proof (search_steamdb_miss st game_title Hc) as E1.
    fold search_url in E1. fold get in E1.
    split.
    + intros html Hget Hne Hw Hcr. rewrite Hget in E1.
      assert (Hsave : save_steamdb_html_to_cache (log_request st get)
                        search_url html
                      = set_files (log_request st get)
                          (<[get_steamdb_cache_filename search_url := html]>
                             (files st))).
      { unfold save_steamdb_html_to_cache, write_text. simpl.
        now rewrite Hw. }
      rewrite E1. split; [now rewrite Hsave|].
      apply search_steamdb_again; [exact Hc|exact Hget|].
      fold search_url. fold get. rewrite Hsave.
      unfold get_steamdb_html_from_cache, read_text. simpl.
      rewrite lookup_insert_eq. simpl.
      rewrite universal_newlines_plain by exact Hcr.
      now apply truthy_text_nonempty.
    + intros Hfail.
      assert (Hwrite : forall st0,
                 fs_write st0 = fs_write st ->
                 match http_get search_url [] with
                 | Some html =>
                     save_steamdb_html_to_cache (log_request st0 get)
                       search_url html
                 | None => log_request st0 get
                 end = log_request st0 get).
      { intros st0 Hfs.
        destruct Hfail as [->|(html & -> & Hw)]; [reflexivity|].
        unfold save_steamdb_html_to_cache, write_text. simpl.
        now rewrite Hfs, Hw. }
      rewrite (Hwrite st eq_refl) in E1. rewrite E1.
      assert (Hc1 : truthy_text
                      (get_steamdb_html_from_cache (log_request st get)
                         search_url) = None) by exact Hc.
      pose proof (search_steamdb_miss (log_request st get) game_title Hc1)
        as E2.
      fold search_url in E2. fold get in E2.
      rewrite (Hwrite (log_request st get) eq_refl) in E2. rewrite E2.
      simpl. now rewrite <- app_assoc.
Qed.

Lemma str_split_component id rest :
  str_contains "/" id = false ->
  str_split "/" (id +:+ String "/" rest) = id :: str_split "/" rest.
Proof.
  induction id as [|c id IH].
  - intros _. change (EmptyString +:+ String "/" rest) with (String "/" rest).
    cbn [str_split]. now rewrite Ascii.eqb_refl.
  - cbn [str_contains]. intros [Hc Hid]%orb_false_iff.
    rewrite str_app_cons. cbn [str_split].
    rewrite Ascii.eqb_sym, Hc, IH by assumption. reflexivity.
Qed.

(** X16: the identifier is the third component of the link of the first
    result.  For a cached search page whose first result links to
    "/app/<id>/...", with no "/" in <id>, the search returns <id> without
    any GET; for a link with less than three components it raises, so the
    card is dropped. *)
Theorem search_steamdb_app_id (st : state) (game_title html id rest : string) :
  truthy_text (get_steamdb_html_from_cache st
                 ("https://steamdb.info/search/?a=app&q=" +:+ game_title))
  = Some html ->
  str_contains "/" id = false ->
  (parse_search html = ResultLink (Some ("/app/" +:+ id +:+ String "/" rest)) ->
   search_steamdb http_get parse_search st game_title = (st, Some (Some id)))
  /\ (parse_search html = ResultLink (Some ("app/" +:+ id)) ->
      search_steamdb http_get parse_search st game_title = (st, None)).
Proof.
  intros Hc Hid. unfold search_steamdb. rewrite Hc. split; intros ->.
  - change ("/app/" +:+ id +:+ String "/" rest)
      with (String "/" ("app" +:+ String "/" (id +:+ String "/" rest))).
    cbn [str_split]. rewrite Ascii.eqb_refl.
    rewrite (str_split_component "app") by reflexivity.
    now rewrite str_split_component.
  - change ("app/" +:+ id) with ("app" +:+ String "/" id).
    rewrite (str_split_component "app") by reflexivity.
    assert (E : str_split "/" id = [id]).
    { clear Hc. induction id as [|c id IH]; [reflexivity|]. simpl in *.
      apply orb_false_iff in Hid as [Hc Hid].
      now rewrite Ascii.eqb_sym, Hc, IH. }
    now rewrite E.
Qed.
End AcquisitionEdges.

Lemma search_steamdb_cached_witness :
  let first :=
    search_steamdb sample_http_get sample_parse_search empty_state "A" in
  trace (fst first)
  = [mk_request (SearchGet "A") "https://steamdb.info/search/?a=app&q=A"
       [] None]
  /\ search_steamdb sample_http_get sample_parse_search (fst first) "A"
     = first.
Proof.
  intros first.
  destruct (search_steamdb_cached sample_http_get sample_parse_search
              empty_state "A") as (_ & H).
  destruct H as [H _]; [reflexivity|].
  apply (H ("page of https://steamdb.info/search/?a=app&q=A")%string);
    [reflexivity|discriminate|reflexivity|reflexivity].
Defined.

Lemma search_steamdb_app_id_witness :
  let st :=
    save_steamdb_html_to_cache empty_state
      "https://steamdb.info/search/?a=app&q=A" "results" in
  search_steamdb sample_http_get sample_parse_search st "A"
  = (st, Some (Some "504230"%string)).
Proof.
  intros st.
  apply (search_steamdb_app_id sample_http_get sample_parse_search st "A"
           "results" "504230" ""); reflexivity.
Defined.

Lemma refresh_with_nothing_new_witness :
  let known :=
    set_db empty_state
      [stored_A; mk_game "B" None None None None None None None None;
       mk_game "C" None None None None None None None None] in
  exists st' new_requests,
    sample_get_game_data 3 sample_base_url true known
    = Some (ensure_types (db known), st')
    /\ db st' = db known /\ csv st' = csv known
    /\ trace st' = trace known ++ new_requests
    /\ new_requests <> []
    /\ Forall (fun r => exists p, req_kind r = ListingGet p) new_requests.
Proof.
  intros known.
  apply (refresh_with_nothing_new sample_http_get sample_parse_listing
           sample_parse_detail sample_parse_search sample_parse_app
           sample_dateutil_parse sample_now sample_to_csv 3 2
           sample_base_url known); [|lia|reflexivity].
  intros page html c t Hget Hc Ht.
  unfold sample_http_get in Hget.
  assert (Hcards : In c (game_cards (sample_parse_listing "L1"))
                   \/ In c (game_cards (sample_parse_listing "L2"))
                   \/ In c (game_cards (sample_parse_listing html))
                      /\ html <> "L1"%string /\ html <> "L2"%string).
  { destruct (String.eqb_spec html "L1") as [->|N1]; [now left|].
    destruct (String.eqb_spec html "L2") as [->|N2]; [now right; left|].
    right; right. auto. }
  destruct Hcards as [H|[H|(H & N1 & N2)]].
  - simpl in H. destruct H as [<-|[<-|[<-|[]]]]; simpl in Ht;
      try discriminate; injection Ht as <-; reflexivity.
  - simpl in H. destruct H as [<-|[<-|[]]]; simpl in Ht;
      injection Ht as <-; reflexivity.
  - unfold sample_parse_listing in H.
    destruct (String.eqb_spec html "L1"); [congruence|].
    simpl in H. destruct H as [<-|[<-|[]]]; simpl in Ht;
      injection Ht as <-; reflexivity.
Defined.

(** ** Acquisition: the pages of a crawl *)

Section CrawlPages.
Variable http_get : string -> list (string * string) -> option string.
Variable parse_listing : string -> listing_page.
Variable parse_detail : string -> detail_page.
Variable parse_search : string -> search_result.
Variable parse_app : string -> option string.
Variable dateutil_parse : string -> option parsed_date.
Variable now : datetime.

Local Abbreviation process_card_ :=
  (process_card http_get parse_detail parse_search parse_app
     dateutil_parse now).
Local Abbreviation crawl_ :=
  (crawl http_get parse_listing parse_detail parse_search parse_app
     dateutil_parse now).

Lemma card_request_not_listing t r :
  card_request t r -> listing_page_of r = None.
Proof.
  unfold card_request, listing_page_of. intros [_ H].
  destruct (req_kind r); [destruct H|reflexivity..].
Qed.

Lemma omap_none {A B} (f : A -> option B) l :
  Forall (fun x => f x = None) l -> omap f l = [].
Proof.
  induction 1 as [|x l Hx _ IH]; [reflexivity|]. simpl. now rewrite Hx.
Qed.

Lemma state_extends_no_listing t st st' :
  state_extends (card_request t) st st' ->
  exists rq, trace st' = trace st ++ rq /\ omap listing_page_of rq = [].
Proof.
  intros (_ & _ & (rq & T & F) & _). exists rq. split; [exact T|].
  apply omap_none. eapply Forall_impl; [exact F|].
  apply card_request_not_listing.
Qed.

(** The work on a card issues no listing GET. *)
Lemma process_card_no_listing sc c :
  exists rq,
    trace (sc_state (process_card_ sc c)) = trace (sc_state sc) ++ rq
    /\ omap listing_page_of rq = [].
Proof.
  assert (Hrefl : exists rq, trace (sc_state sc) = trace (sc_state sc) ++ rq
                             /\ omap listing_page_of rq = [])
    by (exists []; now rewrite app_nil_r).
  unfold process_card.
  destruct (card_title c) as [t|]; [|exact Hrefl].
  destruct (game_exists_in_db _ t); [exact Hrefl|].
  destruct (card_current_price (card_price c)) as [price warning].
  pose proof (log_price_extends (card_request t) (sc_state sc) t warning)
    as E0.
  destruct (truthy_text (card_href c)) as [href|];
    [|now apply (state_extends_no_listing t)].
  destruct (scrape_details_extends http_get parse_detail parse_search
              parse_app dateutil_parse now
              (log_price (sc_state sc) t warning) t price
              ("https://www.dekudeals.com" +:+ href)) as [E1 _].
  destruct (scrape_details _ _ _ _ _ _ _ _ _ _) as [st1 [game|]];
    simpl in E1; pose proof (state_extends_trans _ _ _ _ E0 E1) as E;
    apply state_extends_no_listing in E; [|exact E].
  cbn [sc_state].
  destruct (save_game_to_db_frame st1 game) as (_ & _ & -> & _). exact E.
Qed.

Lemma fold_process_card_no_listing cards sc :
  exists rq,
    trace (sc_state (fold_left process_card_ cards sc))
    = trace (sc_state sc) ++ rq
    /\ omap listing_page_of rq = [].
Proof.
  revert sc. induction cards as [|c cards IH]; intros sc; simpl.
  - exists []. now rewrite app_nil_r.
  - destruct (IH (process_card_ sc c)) as (r2 & T2 & O2).
    destruct (process_card_no_listing sc c) as (r1 & T1 & O1).
    exists (r1 ++ r2). split; [now rewrite T2, T1, app_assoc|].
    now rewrite omap_app, O1, O2.
Qed.

(** X17: the listing pages of a crawl.  If page [page + k] is the first
    page from [page] on that ends the listing (its fetch fails, or it
    shows no card or no next link), then with more than [k] units of fuel
    the crawl returns, and the listing GETs it issued are those of the
    pages [page], [page + 1], ..., [page + k], in this order and once
    each. *)
Theorem crawl_requests_pages_in_order (k : nat) :
  forall (fuel : nat) (base_url : string) (page : nat) (sc : scrape),
    (k < fuel)%nat ->
    (forall j, (j < k)%nat ->
               last_page http_get parse_listing base_url (page + j) = false) ->
    last_page http_get parse_listing base_url (page + k) = true ->
    exists sc' new_requests,
      crawl_ fuel base_url page sc = Some sc'
      /\ trace (sc_state sc') = trace (sc_state sc) ++ new_requests
      /\ omap listing_page_of new_requests = seq page (S k).
Proof.
  induction k as [|k IH]; intros [|fuel] base_url page sc Hfuel Hnot Hlast;
    try lia; cbn [crawl]; fold (page_url base_url page).
  - rewrite Nat.add_0_r in Hlast. unfold last_page in Hlast.
    set (r := mk_request (ListingGet page) _ _ _).
    destruct (http_get (page_url base_url page) headers) as [html|].
    + destruct (game_cards (parse_listing html)) as [|c cards] eqn:Hcards.
      * eexists _, [r]. split; [reflexivity|].
        split; [apply save_html_to_cache_trace|reflexivity].
      * apply negb_true_iff in Hlast. rewrite Hlast.
        destruct (fold_process_card_no_listing (c :: cards)
                    (mk_scrape
                       (save_html_to_cache (log_request (sc_state sc) r)
                          (page_url base_url page) html)
                       (all_games sc) (games_processed_count sc)))
          as (rq & T & O).
        eexists _, (r :: rq). split; [reflexivity|].
        split; [rewrite T; cbn [sc_state];
                rewrite save_html_to_cache_trace; simpl;
                now rewrite <- app_assoc|].
        change (omap listing_page_of (r :: rq))
          with (page :: omap listing_page_of rq).
        now rewrite O.
    + eexists _, [r]. repeat split.
  - assert (H0 : last_page http_get parse_listing base_url page = false)
      by (rewrite <- (Nat.add_0_r page); apply Hnot; lia).
    unfold last_page in H0.
    set (r := mk_request (ListingGet page) _ _ _).
    destruct (http_get (page_url base_url page) headers) as [html|];
      [|discriminate].
    destruct (game_cards (parse_listing html)) as [|c cards] eqn:Hcards;
      [discriminate|].
    apply negb_false_iff in H0. rewrite H0.
    set (sc1 := mk_scrape _ _ _).
    destruct (fold_process_card_no_listing (c :: cards) sc1) as (rq & T & O).
    destruct (IH fuel base_url (S page)
                (fold_left process_card_ (c :: cards) sc1))
      as (sc' & rq' & Hc & T' & O').
    + lia.
    + intros j Hj. replace (S page + j)%nat with (page + S j)%nat by lia.
      apply Hnot. lia.
    + now replace (S page + k)%nat with (page + S k)%nat by lia.
    + exists sc', (r :: rq ++ rq'). split; [exact Hc|].
      split.
      * rewrite T', T. unfold sc1. cbn [sc_state].
        rewrite save_html_to_cache_trace. simpl. now rewrite <- !app_assoc.
      * change (omap listing_page_of (r :: rq ++ rq'))
          with (page :: omap listing_page_of (rq ++ rq')).
        now rewrite omap_app, O, O'.
Qed.
End CrawlPages.

Lemma crawl_requests_pages_in_order_witness :
  exists sc' new_requests,
    sample_crawl 5 sample_base_url 1 (mk_scrape empty_state [] 0) = Some sc'
    /\ trace (sc_state sc') = new_requests
    /\ omap listing_page_of new_requests = [1; 2]%nat.
Proof.
  apply (crawl_requests_pages_in_order sample_http_get sample_parse_listing
           sample_parse_detail sample_parse_search sample_parse_app
           sample_dateutil_parse sample_now 1 5 sample_base_url 1
           (mk_scrape empty_state [] 0)).
  - lia.
  - intros j Hj. assert (j = 0%nat) as -> by lia. reflexivity.
  - reflexivity.
Defined.

(** ** Discount Statistics Calculator: edges *)

(** X19: the sign of [days_since_last_discount].  For valid datetimes the
    day count from a date to now is negative exactly when the date is
    later than now, and it is -1 exactly when the date is later than now
    by at most one day, the case in which the engine divides by zero. *)
Theorem days_since_sign (now d : datetime) :
  valid_datetime now -> valid_datetime d ->
  (sub_days now d < 0 <-> datetime_ltb now d = true)
  /\ (sub_days now d = -1
      <-> 0 < to_microseconds d - to_microseconds now <= microseconds_per_day).
Proof.
  intros Vn Vd. rewrite (datetime_ltb_spec now d Vn Vd).
  unfold sub_days. rewrite timedelta_microseconds_eq.
  unfold microseconds_per_day.
  split; split; intros H; Z.div_mod_to_equations; lia.
Qed.

Lemma days_since_sign_witness :
  sub_days (mk_datetime 2024 4 1 9 0 0 0) (mk_datetime 2024 4 2 0 0 0 0) = -1
  /\ sub_days (mk_datetime 2024 4 1 9 0 0 0) (mk_datetime 2024 4 2 0 0 0 0) < 0.
Proof.
  assert (V1 : valid_datetime (mk_datetime 2024 4 1 9 0 0 0))
    by (vm_compute; intuition discriminate).
  assert (V2 : valid_datetime (mk_datetime 2024 4 2 0 0 0 0))
    by (vm_compute; intuition discriminate).
  destruct (days_since_sign _ _ V1 V2) as [H1 H2].
  split; [apply H2; vm_compute; intuition discriminate
         |apply H1; reflexivity].
Defined.

(** On valid datetimes equal instants are equal datetimes. *)
Lemma to_microseconds_inj a b :
  valid_datetime a -> valid_datetime b ->
  to_microseconds a = to_microseconds b -> a = b.
Proof.
  intros Va Vb E.
  pose proof (datetime_cmp_spec a b Va Vb) as H.
  rewrite E, Z.compare_refl in H. unfold datetime_cmp in H.
  destruct a, b; simpl in H.
  repeat match type of H with
         | match (?x ?= ?y) with _ => _ end = Eq =>
             destruct (Z.compare_spec x y); try discriminate; subst
         end.
  apply Z.compare_eq in H. now subst.
Qed.

(** A list of valid datetimes has one descending arrangement. *)
Lemma descending_unique S1 : forall S2,
  Forall valid_datetime S1 -> Permutation S1 S2 ->
  descending S1 -> descending S2 -> S1 = S2.
Proof.
  unfold descending.
  induction S1 as [|a S1 IH]; intros S2 V P D1 D2.
  - now apply Permutation_nil in P.
  - destruct S2 as [|b S2]; [now apply Permutation_sym, Permutation_nil in P|].
    assert (V2 : Forall valid_datetime (b :: S2))
      by (eapply Permutation_Forall; eauto).
    apply StronglySorted_inv in D1 as [D1 H1], D2 as [D2 H2].
    rewrite List.Forall_forall in H1, H2.
    assert (Va : valid_datetime a) by now apply Forall_cons in V as [? _].
    assert (Vb : valid_datetime b) by now apply Forall_cons in V2 as [? _].
    assert (Hab : to_microseconds b <= to_microseconds a).
    { assert (Hin : In b (a :: S1))
        by (eapply Permutation_in; [symmetry; exact P|now left]).
      destruct Hin as [->|Hin]; [lia|].
      now apply (datetime_not_ltb a b Va Vb), H1. }
    assert (Hba : to_microseconds a <= to_microseconds b).
    { assert (Hin : In a (b :: S2))
        by (eapply Permutation_in; [exact P|now left]).
      destruct Hin as [->|Hin]; [lia|].
      now apply (datetime_not_ltb b a Vb Va), H2. }
    assert (a = b) as -> by (apply to_microseconds_inj; auto; lia).
    f_equal. apply IH; auto.
    + now apply Forall_cons in V as [_ ?].
    + now apply Permutation_cons_inv in P.
Qed.

(** X20: the statistics depend on the dates, not on the order of the rows
    of the history table: two lists of valid dates that are permutations
    of each other give the same three fields. *)
Theorem discount_statistics_row_order (now : datetime) (D D' : list datetime) :
  Forall valid_datetime D -> Permutation D D' ->
  discount_statistics now D = discount_statistics now D'.
Proof.
  intros V P.
  assert (V' : Forall valid_datetime D') by (eapply Permutation_Forall; eauto).
  assert (E : sort_reverse D = sort_reverse D').
  { apply descending_unique.
    - now apply sort_reverse_valid.
    - rewrite sort_reverse_perm, P. symmetry. apply sort_reverse_perm.
    - now apply sort_reverse_sorted.
    - now apply sort_reverse_sorted. }
  unfold discount_statistics. now rewrite E.
Qed.

Lemma discount_statistics_row_order_witness :
  discount_statistics sample_now
    [mk_datetime 2024 1 10 0 0 0 0; mk_datetime 2024 3 10 0 0 0 0]
  = discount_statistics sample_now
      [mk_datetime 2024 3 10 0 0 0 0; mk_datetime 2024 1 10 0 0 0 0].
Proof.
  apply discount_statistics_row_order; [valid_dates|apply perm_swap].
Defined.

(** ** The sample world, again *)

Lemma requests_of_a_run_witness :
  match sample_get_game_data 2 sample_base_url false empty_state with
  | Some (df, st') =>
      exists new_requests,
        trace st' = new_requests /\ Forall request_shape new_requests
  | None => False
  end.
Proof.
  destruct (sample_get_game_data 2 sample_base_url false empty_state)
    as [[df st']|] eqn:E; [|vm_compute in E; discriminate E].
  destruct (requests_of_a_run sample_http_get sample_parse_listing
              sample_parse_detail sample_parse_search sample_parse_app
              sample_dateutil_parse sample_now sample_to_csv 2
              sample_base_url false empty_state st' df E) as (rq & T & S & _).
  exists rq. split; [exact T|exact S].
Defined.

Lemma table_after_a_run_witness :
  match sample_get_game_data 2 sample_base_url true state_with_A with
  | Some (df, st') =>
      exists games,
        db st'
        = stored_A
          :: map db_row (List.filter (insert_succeeds state_with_A) games)
        /\ NoDup (map title (db st'))
        /\ csv st' = match games with
                     | [] => CsvMissing
                     | _ => CsvFrame true games
                     end
  | None => False
  end.
Proof.
  destruct (sample_get_game_data 2 sample_base_url true state_with_A)
    as [[df st']|] eqn:E; [|vm_compute in E; discriminate E].
  destruct (table_after_a_run sample_http_get sample_parse_listing
              sample_parse_detail sample_parse_search sample_parse_app
              sample_dateutil_parse sample_now sample_to_csv 2
              sample_base_url true state_with_A st' df E)
    as (games & D & _ & _ & _ & C & N).
  exists games. split; [exact D|].
  split; [apply N; apply NoDup_singleton|].
  rewrite C. now destruct games.
Defined.

(** ** Detail Extractor: dates that carry a time zone *)

Section ZonedDates.
Variable http_get : string -> list (string * string) -> option string.
Variable parse_detail : string -> detail_page.
Variable parse_search : string -> search_result.
Variable parse_app : string -> option string.
Variable dateutil_parse : string -> option parsed_date.
Variable now : datetime.

Local Abbreviation scrape_details_ :=
  (scrape_details http_get parse_detail parse_search parse_app
     dateutil_parse now).
Local Abbreviation process_card_ :=
  (process_card http_get parse_detail parse_search parse_app
     dateutil_parse now).

(** X21: a date with a time zone drops the card.  If the detail page that
    is processed, taken from the cache or else fetched, has a history
    table in which one date cell parses to a datetime that carries a time
    zone, the detail processing raises and yields no record, whatever the
    scores and the rating are; the card then adds nothing to the result
    and nothing to the table. *)
Theorem zoned_date_drops_card
    (sc : scrape) (c : card) (t href html : string)
    (rows : list (option string)) :
  let st := sc_state sc in
  let url := "https://www.dekudeals.com" +:+ href in
  card_title c = Some t ->
  truthy_text (card_href c) = Some href ->
  truthy_text (get_html_from_cache st url) = Some html
  \/ (truthy_text (get_html_from_cache st url) = None
      /\ http_get url headers = Some html) ->
  history_table (parse_detail html) = Some rows ->
  Exists (fun p => naive_part p = None) (history_dates dateutil_parse rows) ->
  (forall price st0,
      files st0 = files st ->
      snd (scrape_details_ st0 t price url) = None)
  /\ all_games (process_card_ sc c) = all_games sc
  /\ db (sc_state (process_card_ sc c)) = db st.
Proof.
  intros st url Ht Hhref Hpage Hrows Hzone.
  assert (Hraise : forall price st0,
             files st0 = files st ->
             snd (scrape_details_ st0 t price url) = None).
  { intros price st0 Hfiles. unfold scrape_details.
    assert (Hcache : get_html_from_cache st0 url = get_html_from_cache st url)
      by (unfold get_html_from_cache, read_text; now rewrite Hfiles).
    rewrite Hcache.
    set (r := mk_request (DetailGet t) url headers (Some 15%nat)).
    assert (H1 : exists st1,
               (match truthy_text (get_html_from_cache st url) with
                | Some c => (st0, Some c)
                | None =>
                    match http_get url headers with
                    | Some h => (save_html_to_cache (log_request st0 r)
                                   url h, Some h)
                    | None => (log_request st0 r, None)
                    end
                end) = (st1, Some html)).
    { destruct Hpage as [->|[-> ->]]; eauto. }
    destruct H1 as (st1 & ->).
    destruct (score_cell _) as [ms|]; [|reflexivity].
    destruct (score_cell _) as [os|]; [|reflexivity].
    destruct (search_steamdb _ _ st1 t) as [st2 [app_id|]]; [|reflexivity].
    destruct (get_steam_rating _ _ st2 app_id) as [st3 rating].
    destruct (match truthy_text rating with
              | Some s => option_map Some (python_float s)
              | None => Some None
              end) as [steam|]; [|reflexivity].
    rewrite Hrows, (history_statistics_aware now _ Hzone). reflexivity. }
  split; [exact Hraise|].
  unfold process_card. rewrite Ht, Hhref.
  destruct (game_exists_in_db _ t); [split; reflexivity|].
  destruct (card_current_price (card_price c)) as [price warning].
  assert (Hfiles : files (log_price (sc_state sc) t warning) = files st)
    by (destruct warning; reflexivity).
  pose proof (Hraise price _ Hfiles) as Hnone.
  destruct (scrape_details_extends http_get parse_detail parse_search
              parse_app dateutil_parse now
              (log_price (sc_state sc) t warning) t price url)
    as [(Hdb & _) _].
  fold url.
  destruct (scrape_details_ (log_price (sc_state sc) t warning) t price url)
    as [st1 game].
  simpl in Hnone, Hdb. subst game. cbn [all_games sc_state].
  split; [reflexivity|]. rewrite Hdb. now destruct warning.
Qed.
End ZonedDates.

Lemma zoned_date_drops_card_witness :
  let zoned := fun _ : string =>
    Some (Aware (mk_datetime 2024 3 10 0 0 0 0) 0) in
  let sc := mk_scrape empty_state [] 0 in
  let c := mk_card (Some "A") (Some "$19.99") (Some "/items/a")%string in
  all_games
    (process_card sample_http_get sample_parse_detail sample_parse_search
       sample_parse_app zoned sample_now sc c) = []
  /\ db (sc_state
          (process_card sample_http_get sample_parse_detail
             sample_parse_search sample_parse_app zoned sample_now sc c))
     = [].
Proof.
  intros zoned sc c.
  destruct (zoned_date_drops_card sample_http_get sample_parse_detail
              sample_parse_search sample_parse_app zoned sample_now sc c
              "A" "/items/a" "page of https://www.dekudeals.com/items/a"
              [None; Some "2024-03-10"; Some "soon"; Some "2024-01-10"]%string)
    as (_ & H1 & H2).
  - reflexivity.
  - reflexivity.
  - right. split; reflexivity.
  - reflexivity.
  - left. reflexivity.
  - split; [exact H1|exact H2].
Defined.
